(** * Customer segmentation and churn prediction notebooks

    A shallow embedding of the data transformations of the two notebooks
    (RFM aggregation, skew correction and scaling, segment labelling;
    churn cleaning and risk tiering), followed by the properties proved
    about them.

    Conventions of the embedding:
    - a pandas column is a [list]; a data frame is a list of rows (records);
    - a finite float64 is a rational ([Q]) or, where transcendental
      functions are applied, a real ([R]); arithmetic is exact;
    - a missing value (NaN / NaT) is [None] in an [option];
    - a Python exception is the [Raise] branch of [result];
    - a Python [dict] is a [gmap]. *)

From Stdlib Require Import ZArith QArith.
From Stdlib Require Reals Lra OrdersEx.
From stdpp Require Import gmap strings list sorting.

Local Open Scope string_scope.
Local Open Scope list_scope.

(** * Part I: the embedding *)

(** ** Shared data-frame helpers *)
Module Frame.

(** Exceptions the modelled cells can raise. *)
Inductive exn := IndexError.

Inductive result (A : Type) :=
| Ok (a : A)
| Raise (e : exn).
Global Arguments Ok {A} a.
Global Arguments Raise {A} e.

(** Sequencing: the first exception raised aborts the rest of the cell. *)
#[global] Instance result_ret : MRet result := fun _ a => Ok a.
#[global] Instance result_bind : MBind result := fun _ _ k r =>
  match r with
  | Ok a => k a
  | Raise e => Raise e
  end.

(** A cell of an [object] column as [read_csv] delivers it: text, a
    number, or a missing value. *)
Inductive cell :=
| CStr (s : string)
| CNum (q : Q)
| CNaN.

(** [index[i]] on a pandas index: raises [IndexError] out of range. *)
Definition iloc {A} (l : list A) (i : nat) : result A :=
  match l !! i with
  | Some a => Ok a
  | None => Raise IndexError
  end.

(** [sort_values] on one rational key; [desc] is [ascending=False].  The
    library's default sort does not fix the order of rows with equal
    keys, and the program may order them either way; keeping them in
    frame order is a choice of this model, and the properties below are
    stated so that they hold for any order among equal keys.  A row goes
    before the first row whose key is not smaller (not larger, when
    descending) than its own. *)
Section Sorting.
Context {A : Type} (key : A -> Q) (desc : bool).

Definition goes_before (a b : A) : bool :=
  if desc then Qle_bool (key b) (key a)
  else Qle_bool (key a) (key b).

Fixpoint insert_sorted (a : A) (l : list A) : list A :=
  match l with
  | [] => [a]
  | b :: l' => if goes_before a b then a :: b :: l' else b :: insert_sorted a l'
  end.

(** Rows are inserted from the last to the first. *)
Definition sort_values (l : list A) : list A :=
  foldr insert_sorted [] l.

(** The order the sort establishes between a row and the rows after
    it. *)
Definition in_order (a b : A) : Prop :=
  if desc then (key b <= key a)%Q else (key a <= key b)%Q.
End Sorting.

End Frame.

(** ** The churn notebook *)
Module Churn.
Import Frame.

(** A raw row of [telco_churn.csv]: the three columns the cleaner
    touches, and the remaining feature columns by name. *)
Record raw_row := {
  customerID : cell;
  TotalCharges : cell;
  Churn : cell;
  features : list (string * cell)
}.

(** A row after the cleaning cell has run: [customerID] is dropped,
    [TotalCharges] is float64 (possibly still missing), [Churn] is 0/1. *)
Record clean_row := {
  total_charges : option Q;
  churn : Z;
  other_features : list (string * cell)
}.

Section Cleaner.
(** The text-to-number conversion of [pd.to_numeric]; [None] is a text
    that does not parse.  It belongs to the library, so the cleaner is
    stated for any such conversion. *)
Variable parse_float : string -> option Q.

(** Whether pandas runs with copy-on-write (the rule from pandas 3 on; the
    notebook fixes no version).  Then [df['TotalCharges']] is a new
    object on every access, and what is done to it in place never reaches
    the frame. *)
Variable copy_on_write : bool.

(** [pd.to_numeric(x, errors='coerce')] on one cell. *)
Definition to_numeric (x : cell) : option Q :=
  match x with
  | CStr s => parse_float s
  | CNum q => Some q
  | CNaN => None
  end.

(** The values of a float64 column that are not missing. *)
Definition dropna (col : list (option Q)) : list Q :=
  omap id col.

(** [Series.median()]: missing values are skipped, the rest is sorted;
    the middle value for an odd count, the mean of the two middle
    values for an even count, NaN when nothing is left. *)
Definition median (col : list (option Q)) : option Q :=
  let vs := sort_values (fun q => q) false (dropna col) in
  let n := length vs in
  if Nat.eqb n 0 then None
  else if Nat.even n then
    a ← vs !! (n / 2 - 1)%nat; b ← vs !! (n / 2)%nat; Some ((a + b) / 2)%Q
  else vs !! (n / 2)%nat.

(** [Series.fillna(value)] on one cell; filling with NaN changes
    nothing. *)
Definition fillna (value : option Q) (x : option Q) : option Q :=
  match x with
  | Some q => Some q
  | None => value
  end.

(** [lambda x: 1 if x == 'Yes' else 0]. *)
Definition churn_flag (x : cell) : Z :=
  match x with
  | CStr s => if String.eqb s "Yes" then 1 else 0
  | CNum _ => 0
  | CNaN => 0
  end.

(** The coerced [TotalCharges] column. *)
Definition coerced (df : list raw_row) : list (option Q) :=
  map (fun r => to_numeric (TotalCharges r)) df.

Definition median_total_charges (df : list raw_row) : option Q :=
  median (coerced df).

(** The cleaning cell: coerce, impute with the median, drop
    [customerID], binarise [Churn].  The fill is the chained call
    [df['TotalCharges'].fillna(median_total_charges, inplace=True)]:
    without copy-on-write it fills the column object the frame itself
    holds; with copy-on-write it fills a temporary and the frame keeps
    the coerced column. *)
Definition clean (df : list raw_row) : list clean_row :=
  map (fun r =>
         {| total_charges :=
              if copy_on_write then to_numeric (TotalCharges r)
              else fillna (median_total_charges df) (to_numeric (TotalCharges r));
            churn := churn_flag (Churn r);
            other_features := features r |}) df.
End Cleaner.

(** [a > b] on finite floats, each taken as the rational it denotes. *)
Definition gt (a b : Q) : bool := negb (Qle_bool a b).

(** [assign_risk_tier].  The thresholds 0.75 and 0.50 are exact in
    binary. *)

Definition assign_risk_tier (score : Q) : string :=
  if gt score (75 # 100) then "High Risk"
  else if gt score (50 # 100) then "Medium Risk"
  else "Low Risk".

(** An instance of the conversion for examples: it accepts the
    non-empty strings of decimal digits and nothing else. *)
Fixpoint digits (s : string) (acc : Z) : option Z :=
  match s with
  | EmptyString => Some acc
  | String c s' =>
      let n := Z.of_nat (Ascii.nat_of_ascii c) in
      if ((48 <=? n) && (n <=? 57))%Z then digits s' (10 * acc + (n - 48))%Z
      else None
  end.

Definition decimal_literal (s : string) : option Q :=
  match s with
  | EmptyString => None
  | _ => inject_Z <$> digits s 0
  end.

(** Example frames: the column [["", "10", "20", "30"]], and a column in
    which nothing is a number. *)
Definition example_row (tc ch : string) : raw_row :=
  {| customerID := CStr "0000-AAAAA"; TotalCharges := CStr tc;
     Churn := CStr ch; features := [("tenure", CNum 1)] |}.

Definition example_df : list raw_row :=
  [example_row "" "No"; example_row "10" "Yes";
   example_row "20" "No"; example_row "30" "yes"].

Definition blank_df : list raw_row :=
  [example_row " " "No"; example_row "" "Yes"].

(** The column [["40", "", "10", "30", "20"]]: not sorted, with an even
    number of values that coerce. *)
Definition unsorted_df : list raw_row :=
  [example_row "40" "No"; example_row "" "No"; example_row "10" "Yes";
   example_row "30" "No"; example_row "20" "Yes"].

End Churn.

(** ** The segmentation notebook: RFM aggregation and segment labelling *)
Module Segmentation.
Import Frame.

(** A row of [customers.csv] after [pd.to_datetime], with its four
    fields present: [OrderDate] is a timestamp, counted in nanoseconds
    since the epoch (without the bounds of its 64-bit representation);
    [OrderValue] is a finite number. *)
Record transaction := {
  CustomerID : Z;
  OrderDate : Z;
  OrderID : Z;
  OrderValue : Q
}.

(** [dt.timedelta(days=1)] in nanoseconds. *)
Definition one_day : Z := 86400000000000.

(** [Series.max()] of a datetime column; NaT ([None]) when it is empty. *)
Definition column_max (ds : list Z) : option Z :=
  match ds with
  | [] => None
  | d :: ds' => Some (foldl Z.max d ds')
  end.

(** [snapshot_date = df['OrderDate'].max() + dt.timedelta(days=1)]. *)
Definition snapshot_date (df : list transaction) : option Z :=
  (fun d => d + one_day)%Z <$> column_max (OrderDate <$> df).

(** [Timedelta.days]: whole days, rounded towards minus infinity. *)
Definition days (delta : Z) : Z := (delta / one_day)%Z.

(** [df.groupby('CustomerID')]: one group per key, keys in ascending
    order, the rows of a group in frame order.  A row joins the group of
    its key, or opens a new group at the key's place. *)
Fixpoint add_row (t : transaction) (gs : list (Z * list transaction))
  : list (Z * list transaction) :=
  match gs with
  | [] => [(CustomerID t, [t])]
  | (c, rows) :: gs' =>
      if (CustomerID t <? c)%Z then (CustomerID t, [t]) :: (c, rows) :: gs'
      else if (CustomerID t =? c)%Z then (c, rows ++ [t]) :: gs'
      else (c, rows) :: add_row t gs'
  end.

Definition groupby (df : list transaction) : list (Z * list transaction) :=
  foldl (fun gs t => add_row t gs) [] df.

(** One row of [rfm_df] (the index, [CustomerID], is kept beside it). *)
Record rfm := {
  Recency : option Z;
  Frequency : nat;
  Monetary : Q
}.

(** The three aggregations of [.agg({...})] on one group:
    [(snapshot_date - date.max()).days] on the dates, ['count'] on the
    [OrderID] column (it counts the values present, here all of them) and
    ['sum'] on the [OrderValue] column. *)
Definition agg (snapshot : option Z) (rows : list transaction) : rfm :=
  {| Recency := s ← snapshot; m ← column_max (OrderDate <$> rows);
                Some (days (s - m));
     Frequency := length (OrderID <$> rows);
     Monetary := foldl Qplus 0%Q (OrderValue <$> rows) |}.

Definition rfm_df (df : list transaction) : list (Z * rfm) :=
  (fun g => (g.1, agg (snapshot_date df) g.2)) <$> groupby df.

(** A row of [cluster_profile]: the cluster id (the index of the frame)
    and the rounded means and the count computed for it. *)
Record profile_row := {
  Cluster : Z;
  Recency_mean : Q;
  Frequency_mean : Q;
  Monetary_mean : Q;
  Monetary_count : nat
}.

(** The index of [cluster_profile.sort_values(by=('Recency', 'mean'),
    ascending=True)] and of [cluster_profile.sort_values(by=('Frequency',
    'mean'), ascending=False)]: cluster ids in sorted order. *)
Definition by_recency (cluster_profile : list profile_row) : list Z :=
  Cluster <$> sort_values Recency_mean false cluster_profile.

Definition by_frequency (cluster_profile : list profile_row) : list Z :=
  Cluster <$> sort_values Frequency_mean true cluster_profile.

(** The [segment_map] dict literal.  The four keys are evaluated in
    order; an index out of range raises.  Entries are stored in order, a
    later entry for the same key replacing the earlier one. *)
Definition segment_map (cluster_profile : list profile_row)
  : result (gmap Z string) :=
  k0 ← iloc (by_recency cluster_profile) 0;
  k1 ← iloc (by_recency cluster_profile) 1;
  k2 ← iloc (by_frequency cluster_profile) 2;
  k3 ← iloc (by_frequency cluster_profile) 3;
  mret (<[k3 := "Hibernating"]>
        (<[k2 := "At-Risk"]>
         (<[k1 := "Loyal Customers"]>
          (<[k0 := "Champions"]> ∅)))).

(** [rfm_df['Cluster'].map(segment_map)] on one cluster id: the label,
    or a missing value for an id that is not a key of the dict. *)
Definition Segment (m : gmap Z string) (cluster : Z) : option string :=
  m !! cluster.

(** *** Vocabulary of the properties *)

(** The transactions of customer [c], in frame order. *)
Definition transactions_of (c : Z) (df : list transaction) : list transaction :=
  filter (fun t => CustomerID t = c) df.

(** [m] is the latest of the dates [ds]. *)
Definition latest_of (ds : list Z) (m : Z) : Prop :=
  m ∈ ds /\ forall d, d ∈ ds -> (d <= m)%Z.

(** The rows grouped under key [c], if the key has a group. *)
Fixpoint group_of (c : Z) (gs : list (Z * list transaction))
  : option (list transaction) :=
  match gs with
  | [] => None
  | (k, rows) :: gs' => if (c =? k)%Z then Some rows else group_of c gs'
  end.

(** The sum of a column of values. *)
Definition total (vs : list Q) : Q := foldr Qplus 0%Q vs.

(** Example frame: customer 7 orders on day 100 (at 01:00) and on day
    120, customer 3 on day 90. *)
Definition example_orders : list transaction :=
  [ {| CustomerID := 7; OrderDate := 100 * one_day + 3600000000000;
       OrderID := 1001; OrderValue := 51 # 2 |};
    {| CustomerID := 3; OrderDate := 90 * one_day;
       OrderID := 1002; OrderValue := 10 # 1 |};
    {| CustomerID := 7; OrderDate := 120 * one_day;
       OrderID := 1003; OrderValue := 4 # 1 |} ].

(** The labeler raises, or every cluster of the profile has a label. *)
Definition labels_every_cluster (cluster_profile : list profile_row) : Prop :=
  match segment_map cluster_profile with
  | Raise _ => True
  | Ok m => forall row, row ∈ cluster_profile -> is_Some (Segment m (Cluster row))
  end.

Definition profile (c : Z) (r f m : Q) (n : nat) : profile_row :=
  {| Cluster := c; Recency_mean := r; Frequency_mean := f;
     Monetary_mean := m; Monetary_count := n |}.

(** The profile the notebook's comment calls typical: cluster 0 has low
    Recency and high Frequency, cluster 1 high Recency and low
    Frequency, cluster 2 low Recency and low Frequency, cluster 3 is in
    the middle. *)
Definition typical_profile : list profile_row :=
  [ profile 0 (125 # 10) (94 # 10) (2400 # 1) 30;
    profile 1 (2103 # 10) (12 # 10) (805 # 10) 50;
    profile 2 (201 # 10) (18 # 10) (150 # 1) 40;
    profile 3 (75 # 1) (46 # 10) (90025 # 100) 35 ].

(** A profile on which the two sort orders select four different
    clusters. *)
Definition separated_profile : list profile_row :=
  [ profile 0 (125 # 10) (94 # 10) (2400 # 1) 30;
    profile 1 (2103 # 10) (12 # 10) (805 # 10) 50;
    profile 2 (75 # 1) (18 # 10) (150 # 1) 40;
    profile 3 (201 # 10) (46 # 10) (90025 # 100) 35 ].

End Segmentation.

(** ** The segmentation notebook: skew correction and scaling *)
Module Scaling.
Import Reals.
Local Open Scope R_scope.

(** A row of the float64 matrix handed to [np.log1p] and the scaler. *)
Record row := {
  recency : R;
  frequency : R;
  monetary : R
}.

Definition log1p (x : R) : R := ln (1 + x).
Definition expm1 (y : R) : R := exp y - 1.

Definition mean (xs : list R) : R :=
  fold_right Rplus 0 xs / INR (length xs).

(** Population variance and standard deviation (no Bessel correction). *)
Definition var (xs : list R) : R :=
  mean (map (fun x => Rsqr (x - mean xs)) xs).

Definition std (xs : list R) : R := sqrt (var xs).

(** What [StandardScaler.fit] stores for a column: its mean, and its
    standard deviation with a zero replaced by one. *)
Definition scale_of (xs : list R) : R :=
  if Req_dec_T (std xs) 0 then 1 else std xs.

Definition standardize (xs : list R) (x : R) : R :=
  (x - mean xs) / scale_of xs.

Definition rfm_log (rfm_df : list row) : list row :=
  map (fun r => {| recency := log1p (recency r);
                   frequency := log1p (frequency r);
                   monetary := log1p (monetary r) |}) rfm_df.

(** [scaler.fit_transform(rfm_log)]: every column is standardized with
    the statistics of that same column. *)
Definition fit_transform (X : list row) : list row :=
  map (fun r => {| recency := standardize (map recency X) (recency r);
                   frequency := standardize (map frequency X) (frequency r);
                   monetary := standardize (map monetary X) (monetary r) |}) X.

Definition rfm_scaled (rfm_df : list row) : list row :=
  fit_transform (rfm_log rfm_df).

(** The inverse of the round-trip property; the notebook itself never
    inverts the scaling.  A scaled value is multiplied by the standard
    deviation of its column of logs, the mean of that column is added,
    then [expm1] is applied. *)
Definition unscale (xs : list R) (z : R) : R :=
  expm1 (z * std xs + mean xs).

Definition inverse_transform (rfm_df : list row) (z : row) : row :=
  let X := rfm_log rfm_df in
  {| recency := unscale (map recency X) (recency z);
     frequency := unscale (map frequency X) (frequency z);
     monetary := unscale (map monetary X) (monetary z) |}.

(** Example matrix: two customers with different Recency, Frequency and
    Monetary. *)
Definition example_rfm : list row :=
  [ {| recency := 1; frequency := 2; monetary := 59 / 2 |};
    {| recency := 31; frequency := 1; monetary := 10 |} ].

End Scaling.

(** ** Further example data for the scaling *)
Module ScalingData.
Import Reals Scaling.
Local Open Scope R_scope.


End ScalingData.

(** ** The churn notebook: ranking of the feature importances *)
Module Importance.
Import Frame.

(** A row of [feature_importance_df]: a column name of the encoded
    matrix and the importance the classifier gives it. *)
Record importance_row := {
  feature : string;
  importance : Q
}.

(** [feature_importance_df.sort_values(by='importance',
    ascending=False).head(10)]. *)
Definition top_features (feature_importance_df : list importance_row)
  : list importance_row :=
  take 10 (sort_values importance true feature_importance_df).

End Importance.

(** ** The segmentation notebook: cluster profile *)
Module Profiling.
Import Frame.

(** [groupby] on an integer key, for any kind of row: keys ascending,
    rows of a group in frame order. *)
Section GroupBy.
Context {A : Type} (key : A -> Z).

Fixpoint add_to_group (a : A) (gs : list (Z * list A)) : list (Z * list A) :=
  match gs with
  | [] => [(key a, [a])]
  | (c, rows) :: gs' =>
      if (key a <? c)%Z then (key a, [a]) :: (c, rows) :: gs'
      else if (key a =? c)%Z then (c, rows ++ [a]) :: gs'
      else (c, rows) :: add_to_group a gs'
  end.

Definition group_by (l : list A) : list (Z * list A) :=
  foldl (fun gs a => add_to_group a gs) [] l.
End GroupBy.

(** A row of [rfm_df] once [rfm_df['Cluster'] = kmeans.labels_] has run.
    Recency is present for every customer of the RFM frame. *)
Record customer := {
  CustomerID : Z;
  Recency : Z;
  Frequency : nat;
  Monetary : Q;
  Cluster : Z
}.

(** ['mean'] of a column of a non-empty group. *)
Definition mean (vs : list Q) : Q :=
  (Segmentation.total vs / inject_Z (Z.of_nat (length vs)))%Q.

Section Profile.
(** [.round(2)] on a float; it belongs to the library. *)
Variable round2 : Q -> Q.

(** One row of [cluster_profile]: the means of the three columns of the
    group, rounded, and ['count'] of its Monetary column. *)
Definition profile_of (g : Z * list customer) : Segmentation.profile_row :=
  {| Segmentation.Cluster := g.1;
     Segmentation.Recency_mean := round2 (mean ((fun c => inject_Z (Recency c)) <$> g.2));
     Segmentation.Frequency_mean :=
       round2 (mean ((fun c => inject_Z (Z.of_nat (Frequency c))) <$> g.2));
     Segmentation.Monetary_mean := round2 (mean (Monetary <$> g.2));
     Segmentation.Monetary_count := length (Monetary <$> g.2) |}.

(** [rfm_df.groupby('Cluster').agg({...}).round(2)]. *)
Definition cluster_profile (rfm_df : list customer) : list Segmentation.profile_row :=
  profile_of <$> group_by Cluster rfm_df.

(** The [Segment] column: the dict is built from the profile, then every
    customer's cluster id is looked up in it. *)
Definition Segment_column (rfm_df : list customer) : result (list (option string)) :=
  segment_map ← Segmentation.segment_map (cluster_profile rfm_df);
  mret ((fun c => Segmentation.Segment segment_map (Cluster c)) <$> rfm_df).
End Profile.

(** Rounding to the nearest hundredth, halves towards the even
    neighbour; an instance of [round2] for examples. *)
Definition round_half_even (q : Q) : Q :=
  let n := (Qnum q * 100)%Z in
  let d := Z.pos (Qden q) in
  let f := (n / d)%Z in
  let r := (2 * (n mod d))%Z in
  (if (r <? d)%Z then f
   else if (d <? r)%Z then f + 1
   else if Z.even f then f else f + 1)%Z # 100.

Definition cust (id r : Z) (f : nat) (m : Q) (k : Z) : customer :=
  {| CustomerID := id; Recency := r; Frequency := f; Monetary := m; Cluster := k |}.

(** Five customers in four clusters, and three customers in two. *)
Definition four_clusters : list customer :=
  [ cust 11 3 9 (2400 # 1) 2; cust 12 200 1 (80 # 1) 0; cust 13 75 2 (150 # 1) 3;
    cust 14 20 5 (900 # 1) 1; cust 15 4 11 (2600 # 1) 2 ].

Definition two_clusters : list customer :=
  [ cust 11 3 9 (2400 # 1) 1; cust 12 200 1 (80 # 1) 0; cust 13 75 2 (150 # 1) 1 ].

(** Five clusters with distinct means. *)
Definition five_cluster_profile : list Segmentation.profile_row :=
  [ Segmentation.profile 0 (125 # 10) (94 # 10) (2400 # 1) 30;
    Segmentation.profile 1 (2103 # 10) (12 # 10) (805 # 10) 50;
    Segmentation.profile 2 (75 # 1) (18 # 10) (150 # 1) 40;
    Segmentation.profile 3 (201 # 10) (46 # 10) (90025 # 100) 35;
    Segmentation.profile 4 (40 # 1) (30 # 10) (500 # 1) 20 ].

End Profiling.

(** ** The churn notebook: one-hot encoding *)
Module Encoding.

(** A column of the feature frame [X]: numeric (int64 or float64), or of
    dtype object with cells that are text or missing. *)
Inductive column :=
| NumCol (name : string) (vals : list (option Q))
| ObjCol (name : string) (vals : list (option string)).

(** A column of [X_encoded]: a numeric column passed through, or an
    indicator column. *)
Inductive encoded :=
| Kept (name : string) (vals : list (option Q))
| Dummy (name : string) (vals : list bool).

(** The levels of an object column: the texts that occur in it, each
    once, in ascending lexicographic order. *)
Fixpoint insert_level (s : string) (l : list string) : list string :=
  match l with
  | [] => [s]
  | x :: l' =>
      match OrdersEx.String_as_OT.compare s x with
      | Lt => s :: x :: l'
      | Eq => x :: l'
      | Gt => x :: insert_level s l'
      end
  end.

Definition levels (vals : list (option string)) : list string :=
  foldr insert_level [] (omap id vals).

(** The indicator columns of one object column with [drop_first=True]:
    one per level but the first, named prefix, "_", level; a row is true
    in the column of its own level, and a missing cell is true
    nowhere. *)
Definition get_dummies_1d (prefix : string) (vals : list (option string))
  : list encoded :=
  (fun level =>
     Dummy (String.append prefix (String.append "_" level))
           ((fun v => bool_decide (v = Some level)) <$> vals))
    <$> tail (levels vals).

(** [pd.get_dummies(X, drop_first=True)]: the numeric columns first, then
    the indicator columns of every object column, in frame order. *)
Definition get_dummies (X : list column) : list encoded :=
  omap (fun c => match c with NumCol n v => Some (Kept n v) | ObjCol _ _ => None end) X
  ++ mjoin ((fun c => match c with
                      | NumCol _ _ => []
                      | ObjCol n v => get_dummies_1d n v
                      end) <$> X).

(** The bits of row [i] in a list of indicator columns. *)
Definition row_bits (cols : list encoded) (i : nat) : list bool :=
  omap (fun c => match c with Kept _ _ => None | Dummy _ v => v !! i end) cols.

Definition n_rows (c : column) : nat :=
  match c with
  | NumCol _ v => length v
  | ObjCol _ v => length v
  end.

Definition encoded_rows (c : encoded) : nat :=
  match c with
  | Kept _ v => length v
  | Dummy _ v => length v
  end.

(** Example column: contract types of four customers, one missing. *)
Definition example_contract : list (option string) :=
  [Some "Two year"; Some "Month-to-month"; None; Some "One year"].

Definition encoded_name (c : encoded) : string :=
  match c with
  | Kept n _ => n
  | Dummy n _ => n
  end.

(** Example frame: a numeric column and the contract column. *)
Definition example_X : list column :=
  [ NumCol "tenure" [Some (inject_Z 1); Some (inject_Z 24); None; Some (inject_Z 60)];
    ObjCol "Contract" example_contract ].

End Encoding.

(** * Part II: properties *)

(** ** Facts about the shared helpers *)
Module FrameFacts.
Import Frame.

Section Sorting.
Context {A : Type} (key : A -> Q) (desc : bool).

Lemma insert_sorted_Permutation (a : A) (l : list A) :
  insert_sorted key desc a l ≡ₚ a :: l.
Proof.
  induction l as [|b l IH]; simpl; [done|].
  destruct (goes_before key desc a b); [done|].
  rewrite IH. apply Permutation_swap.
Qed.

Lemma sort_values_Permutation (l : list A) :
  sort_values key desc l ≡ₚ l.
Proof.
  induction l as [|a l IH]; simpl; [done|].
  rewrite insert_sorted_Permutation. by rewrite IH.
Qed.

Lemma sort_values_length (l : list A) :
  length (sort_values key desc l) = length l.
Proof. apply Permutation_length, sort_values_Permutation. Qed.

Lemma in_order_trans (a b c : A) :
  in_order key desc a b -> in_order key desc b c -> in_order key desc a c.
Proof. unfold in_order. destruct desc; eauto using Qle_trans. Qed.

Lemma goes_before_true (a b : A) :
  goes_before key desc a b = true -> in_order key desc a b.
Proof.
  unfold goes_before, in_order. destruct desc; by rewrite Qle_bool_iff.
Qed.

Lemma goes_before_false (a b : A) :
  goes_before key desc a b = false -> in_order key desc b a.
Proof.
  unfold goes_before, in_order.
  destruct desc; rewrite <- not_true_iff_false, Qle_bool_iff;
    intros H%Qnot_le_lt; by apply Qlt_le_weak.
Qed.

Lemma insert_sorted_sorted (a : A) (l : list A) :
  StronglySorted (in_order key desc) l ->
  StronglySorted (in_order key desc) (insert_sorted key desc a l).
Proof.
  induction l as [|b l IH]; simpl; intros Hs; [by repeat constructor|].
  apply StronglySorted_inv in Hs as [Hs Hall].
  destruct (goes_before key desc a b) eqn:Hgo.
  - apply goes_before_true in Hgo.
    constructor; [by constructor|]. constructor; [done|].
    eapply Forall_impl; [exact Hall|]. intros c. by apply in_order_trans.
  - apply goes_before_false in Hgo.
    constructor; [by apply IH|].
    rewrite insert_sorted_Permutation. by constructor.
Qed.

Lemma sort_values_sorted (l : list A) :
  StronglySorted (in_order key desc) (sort_values key desc l).
Proof.
  induction l as [|a l IH]; simpl; [constructor|].
  by apply insert_sorted_sorted.
Qed.
End Sorting.

Lemma iloc_Ok {A} (l : list A) (i : nat) (a : A) :
  iloc l i = Ok a <-> l !! i = Some a.
Proof. unfold iloc. destruct (l !! i); split; congruence. Qed.

Lemma iloc_Raise {A} (l : list A) (i : nat) (e : exn) :
  iloc l i = Raise e <-> (length l <= i)%nat.
Proof.
  unfold iloc. destruct (l !! i) eqn:E.
  - apply lookup_lt_Some in E. split; [congruence | lia].
  - apply lookup_ge_None in E. destruct e. split; [lia | done].
Qed.

End FrameFacts.

(** ** Properties of the churn notebook *)
Module ChurnProps.
Import Frame Churn.

Lemma gt_true (a b : Q) : gt a b = true <-> (b < a)%Q.
Proof.
  unfold gt. rewrite negb_true_iff, <- not_true_iff_false, Qle_bool_iff.
  split; [apply Qnot_le_lt | apply Qlt_not_le].
Qed.

Lemma gt_false (a b : Q) : gt a b = false <-> (a <= b)%Q.
Proof. unfold gt. by rewrite negb_false_iff, Qle_bool_iff. Qed.

(** C2.  The risk tier of a score is "High Risk" exactly above 0.75,
    "Medium Risk" exactly in (0.50, 0.75], and "Low Risk" exactly up to
    0.50; the boundary scores 0.75, 0.751 and 0.50 fall in Medium, High
    and Low.  The score 0.751 is checked both as the decimal fraction and
    as the float64 nearest to it. *)
Theorem assign_risk_tier_thresholds :
  (forall p : Q,
      (assign_risk_tier p = "High Risk" <-> (75 # 100 < p)%Q) /\
      (assign_risk_tier p = "Medium Risk" <-> (50 # 100 < p /\ p <= 75 # 100)%Q) /\
      (assign_risk_tier p = "Low Risk" <-> (p <= 50 # 100)%Q)) /\
  assign_risk_tier (75 # 100) = "Medium Risk" /\
  assign_risk_tier (751 # 1000) = "High Risk" /\
  assign_risk_tier (6764406640310485 # 9007199254740992) = "High Risk" /\
  assign_risk_tier (50 # 100) = "Low Risk".
Proof.
  split; [|by vm_compute].
  intros p. unfold assign_risk_tier.
  destruct (gt p (75 # 100)) eqn:Hhigh.
  { apply gt_true in Hhigh.
    repeat split; try done.
    - intros [_ Hle]. by apply Qlt_not_le in Hhigh.
    - intros Hle. exfalso. apply (Qlt_not_le _ _ Hhigh).
      eapply Qle_trans; [exact Hle | done]. }
  apply gt_false in Hhigh.
  destruct (gt p (50 # 100)) eqn:Hmid.
  - apply gt_true in Hmid.
    repeat split; try done.
    + intros Hlt. by apply Qlt_not_le in Hlt.
    + intros Hle. by apply Qlt_not_le in Hmid.
  - apply gt_false in Hmid.
    repeat split; try done.
    + intros Hlt. by apply Qlt_not_le in Hlt.
    + intros [Hlt _]. by apply Qlt_not_le in Hlt.
Qed.

Lemma churn_flag_Yes (x : cell) : churn_flag x = 1%Z <-> x = CStr "Yes".
Proof.
  destruct x as [s| |]; simpl; [|split; discriminate..].
  destruct (String.eqb_spec s "Yes") as [->|Hne]; split; try done.
  intros [=]. done.
Qed.

Lemma churn_flag_other (x : cell) : x <> CStr "Yes" -> churn_flag x = 0%Z.
Proof.
  destruct x as [s| |]; simpl; try done.
  destruct (String.eqb_spec s "Yes") as [->|Hne]; done.
Qed.

Section Cleaner.
Variable parse_float : string -> option Q.

Lemma clean_lookup (copy_on_write : bool) (df : list raw_row) (i : nat) :
  clean parse_float copy_on_write df !! i =
  (fun r => {| total_charges :=
                 if copy_on_write then to_numeric parse_float (TotalCharges r)
                 else fillna (median_total_charges parse_float df)
                             (to_numeric parse_float (TotalCharges r));
               churn := churn_flag (Churn r);
               other_features := features r |}) <$> df !! i.
Proof. unfold clean. apply list_lookup_fmap. Qed.

Lemma dropna_present (vs : list Q) : dropna (Some <$> vs) = vs.
Proof.
  unfold dropna. induction vs as [|v vs IH]; [done|].
  csimpl. by f_equal.
Qed.

Lemma dropna_all_missing (col : list (option Q)) :
  Forall (fun x => x = None) col -> dropna col = [].
Proof.
  unfold dropna. induction 1 as [|x col -> _ IH]; [done|].
  csimpl. exact IH.
Qed.

(** The median only looks at the values that are present. *)
Lemma median_dropna (col : list (option Q)) :
  median col = median (Some <$> dropna col).
Proof. unfold median. by rewrite dropna_present. Qed.
End Cleaner.

(** C7.  The cleaned [Churn] of a row is 1 exactly when the raw field is
    the text "Yes", and 0 for every other content of the field: another
    text, a number or a missing value. *)
Theorem churn_is_exact_Yes_match
    (parse_float : string -> option Q) (copy_on_write : bool)
    (df : list raw_row) (i : nat) (r : raw_row) :
  df !! i = Some r ->
  exists c : clean_row, clean parse_float copy_on_write df !! i = Some c /\
    (churn c = 1%Z <-> Churn r = CStr "Yes") /\
    (Churn r <> CStr "Yes" -> churn c = 0%Z).
Proof.
  intros Hr. rewrite clean_lookup, Hr. eexists; split; [done|]. simpl.
  split; [apply churn_flag_Yes | apply churn_flag_other].
Qed.

Lemma churn_is_exact_Yes_match_witness :
  example_df !! 3%nat = Some (example_row "30" "yes") /\
  exists c : clean_row, clean decimal_literal true example_df !! 3%nat = Some c /\
    (churn c = 1%Z <-> Churn (example_row "30" "yes") = CStr "Yes") /\
    (Churn (example_row "30" "yes") <> CStr "Yes" -> churn c = 0%Z).
Proof.
  split; [reflexivity|].
  apply (churn_is_exact_Yes_match decimal_literal true example_df 3 _). reflexivity.
Defined.

(** C10.  When no [TotalCharges] value coerces, the cleaner still
    returns a frame with one row per input row: the median is missing,
    and every [TotalCharges] of the output is missing.  This is so with
    and without copy-on-write. *)
Theorem all_blank_total_charges_stay_missing
    (parse_float : string -> option Q) (copy_on_write : bool) (df : list raw_row) :
  Forall (fun r => to_numeric parse_float (TotalCharges r) = None) df ->
  median_total_charges parse_float df = None /\
  length (clean parse_float copy_on_write df) = length df /\
  Forall (fun c => total_charges c = None) (clean parse_float copy_on_write df).
Proof.
  intros Hall.
  assert (Hmed : median_total_charges parse_float df = None).
  { unfold median_total_charges, median.
    rewrite dropna_all_missing; [done|].
    unfold coerced. apply Forall_fmap. exact Hall. }
  split; [exact Hmed|]. split; [apply length_map|].
  unfold clean. apply Forall_fmap.
  eapply Forall_impl; [exact Hall|].
  intros r Hr. simpl. rewrite Hr, Hmed. by destruct copy_on_write.
Qed.

Lemma all_blank_total_charges_stay_missing_witness :
  Forall (fun r => to_numeric decimal_literal (TotalCharges r) = None) blank_df /\
  median_total_charges decimal_literal blank_df = None /\
  length (clean decimal_literal false blank_df) = length blank_df /\
  Forall (fun c => total_charges c = None) (clean decimal_literal false blank_df).
Proof.
  assert (H : Forall (fun r => to_numeric decimal_literal (TotalCharges r) = None)
                     blank_df).
  { repeat constructor. }
  split; [exact H|].
  exact (all_blank_total_charges_stay_missing decimal_literal false blank_df H).
Defined.

End ChurnProps.

(** ** Properties of the RFM aggregation *)
Module RfmProps.
Import Frame Segmentation.

Implicit Types (t : transaction) (df : list transaction) (c k : Z).
Implicit Types (gs : list (Z * list transaction)).

(** *** Grouping *)

Lemma add_row_keys t gs c :
  c ∈ (add_row t gs).*1 <-> c = CustomerID t \/ c ∈ gs.*1.
Proof.
  induction gs as [|[k rows] gs IH]; simpl.
  - rewrite list_elem_of_singleton, elem_of_nil. tauto.
  - destruct (Z.ltb_spec (CustomerID t) k) as [Hlt|Hge]; simpl.
    { rewrite !elem_of_cons. tauto. }
    destruct (Z.eqb_spec (CustomerID t) k) as [Heq|Hne]; simpl.
    + rewrite !elem_of_cons. subst k. tauto.
    + rewrite !elem_of_cons, IH. tauto.
Qed.

Lemma add_row_sorted t gs :
  StronglySorted Z.lt gs.*1 -> StronglySorted Z.lt (add_row t gs).*1.
Proof.
  induction gs as [|[k rows] gs IH]; simpl; intros Hs.
  - repeat constructor.
  - apply StronglySorted_inv in Hs as [Hs Hall].
    destruct (Z.ltb_spec (CustomerID t) k) as [Hlt|Hge]; simpl.
    { constructor; [by constructor|].
      constructor; [done|].
      eapply Forall_impl; [exact Hall|]. simpl. lia. }
    destruct (Z.eqb_spec (CustomerID t) k) as [Heq|Hne]; simpl.
    + by constructor.
    + constructor; [by apply IH|].
      apply Forall_forall. intros c [->|Hc]%add_row_keys; [lia|].
      rewrite Forall_forall in Hall. by apply Hall.
Qed.

Lemma group_of_None c gs : c ∉ gs.*1 -> group_of c gs = None.
Proof.
  induction gs as [|[k rows] gs IH]; simpl; [done|].
  rewrite elem_of_cons. intros Hnot.
  destruct (Z.eqb_spec c k) as [->|Hne]; [tauto|].
  apply IH. tauto.
Qed.

Lemma group_of_elem_of c rows gs :
  NoDup gs.*1 -> (c, rows) ∈ gs <-> group_of c gs = Some rows.
Proof.
  induction gs as [|[k rows'] gs IH]; simpl; intros Hnd.
  - rewrite elem_of_nil. split; [tauto | discriminate].
  - apply NoDup_cons in Hnd as [Hk Hnd].
    rewrite elem_of_cons, (IH Hnd).
    destruct (Z.eqb_spec c k) as [->|Hne].
    + split.
      * intros [[= ->]|Hin]; [done|].
        by rewrite group_of_None in Hin.
      * intros [= ->]. by left.
    + split; [|tauto]. intros [[= -> ->]|Hin]; [lia | done].
Qed.

Lemma sorted_keys_NoDup gs : StronglySorted Z.lt gs.*1 -> NoDup gs.*1.
Proof.
  induction (gs.*1) as [|k ks IH]; intros Hs; [constructor|].
  apply StronglySorted_inv in Hs as [Hs Hall].
  apply NoDup_cons. split; [|by apply IH].
  intros Hin. rewrite Forall_forall in Hall. specialize (Hall _ Hin). lia.
Qed.

(** Adding a row appends it to the group of its key and leaves the other
    groups alone. *)
Lemma group_of_add_row t gs c :
  StronglySorted Z.lt gs.*1 ->
  group_of c (add_row t gs) =
  if decide (c = CustomerID t)
  then Some (default [] (group_of c gs) ++ [t])
  else group_of c gs.
Proof.
  induction gs as [|[k rows] gs IH]; simpl; intros Hs.
  - destruct (Z.eqb_spec c (CustomerID t)); by case_decide.
  - apply StronglySorted_inv in Hs as [Hs Hall].
    destruct (Z.ltb_spec (CustomerID t) k) as [Hlt|Hge]; simpl.
    { case_decide as Hc.
      - subst c. rewrite Z.eqb_refl.
        destruct (Z.eqb_spec (CustomerID t) k) as [|_]; [lia|].
        rewrite group_of_None; [done|].
        intros Hin. rewrite Forall_forall in Hall. specialize (Hall _ Hin). lia.
      - by destruct (Z.eqb_spec c (CustomerID t)). }
    destruct (Z.eqb_spec (CustomerID t) k) as [Heq|Hne]; simpl.
    + subst k. destruct (Z.eqb_spec c (CustomerID t)); by case_decide.
    + rewrite (IH Hs).
      destruct (Z.eqb_spec c k) as [->|Hck]; [|done].
      case_decide; [congruence | done].
Qed.

Lemma groupby_snoc df t : groupby (df ++ [t]) = add_row t (groupby df).
Proof. unfold groupby. by rewrite foldl_snoc. Qed.

Lemma groupby_sorted df : StronglySorted Z.lt (groupby df).*1.
Proof.
  induction df as [|t df IH] using rev_ind; [constructor|].
  rewrite groupby_snoc. by apply add_row_sorted.
Qed.

Lemma groupby_keys df c : c ∈ (groupby df).*1 <-> c ∈ CustomerID <$> df.
Proof.
  induction df as [|t df IH] using rev_ind; [done|].
  rewrite groupby_snoc, add_row_keys, IH, fmap_app, elem_of_app. simpl.
  rewrite list_elem_of_singleton. tauto.
Qed.

Lemma transactions_of_absent c df :
  c ∉ CustomerID <$> df -> transactions_of c df = [].
Proof.
  intros Hnot. unfold transactions_of.
  apply elem_of_nil_inv. intros t [Ht Hin]%list_elem_of_filter.
  apply Hnot. rewrite <- Ht. by apply list_elem_of_fmap_2.
Qed.

(** The group of a key holds exactly the transactions of that customer,
    in frame order; a key without transactions has no group. *)
Lemma groupby_group_of df c :
  group_of c (groupby df) =
  if decide (c ∈ CustomerID <$> df) then Some (transactions_of c df) else None.
Proof.
  induction df as [|t df IH] using rev_ind.
  { rewrite decide_False; [done|]. apply not_elem_of_nil. }
  rewrite groupby_snoc, group_of_add_row by apply groupby_sorted.
  assert (Hold : default [] (group_of c (groupby df)) = transactions_of c df).
  { rewrite IH. case_decide; [done|]. by rewrite transactions_of_absent. }
  unfold transactions_of in *. rewrite filter_app, fmap_app. simpl.
  destruct (decide (c = CustomerID t)) as [->|Hne].
  - rewrite Hold, filter_cons_True, filter_nil by done.
    rewrite decide_True; [done|]. rewrite elem_of_app, list_elem_of_singleton. tauto.
  - rewrite IH, filter_cons_False, filter_nil, app_nil_r by congruence.
    apply decide_ext. rewrite elem_of_app, list_elem_of_singleton. tauto.
Qed.

Lemma groupby_elem_of df c rows :
  (c, rows) ∈ groupby df <->
  c ∈ CustomerID <$> df /\ rows = transactions_of c df.
Proof.
  rewrite group_of_elem_of by apply sorted_keys_NoDup, groupby_sorted.
  rewrite groupby_group_of. case_decide; split.
  - intros [= <-]. done.
  - intros [_ ->]. done.
  - discriminate.
  - tauto.
Qed.

Lemma rfm_df_keys df : (rfm_df df).*1 = (groupby df).*1.
Proof. unfold rfm_df. by rewrite <- list_fmap_compose. Qed.

Lemma rfm_df_elem_of df c (r : rfm) :
  (c, r) ∈ rfm_df df <->
  c ∈ CustomerID <$> df /\ r = agg (snapshot_date df) (transactions_of c df).
Proof.
  unfold rfm_df. rewrite list_elem_of_fmap. split.
  - intros ([k rows] & [= -> ->] & Hin). simpl.
    apply groupby_elem_of in Hin as [Hc ->]. done.
  - intros [Hc ->]. exists (c, transactions_of c df). split; [done|].
    by apply groupby_elem_of.
Qed.

(** *** Frequency and Monetary *)

Lemma foldl_Qplus (a : Q) (vs : list Q) :
  (foldl Qplus a vs == a + total vs)%Q.
Proof.
  revert a. induction vs as [|v vs IH]; intros a; simpl.
  - ring.
  - rewrite IH. ring.
Qed.

(** C3.  The RFM frame has exactly one record per distinct CustomerID of
    the input; its Frequency is the number of that customer's
    transactions and its Monetary the sum of their OrderValue. *)
Theorem rfm_one_record_per_customer df :
  NoDup (rfm_df df).*1 /\
  (forall c, c ∈ (rfm_df df).*1 <-> c ∈ CustomerID <$> df) /\
  (forall c (r : rfm),
      (c, r) ∈ rfm_df df ->
      Frequency r = length (transactions_of c df) /\
      (Monetary r == total (OrderValue <$> transactions_of c df))%Q).
Proof.
  split; [|split].
  - rewrite rfm_df_keys. apply sorted_keys_NoDup, groupby_sorted.
  - intros c. rewrite rfm_df_keys. apply groupby_keys.
  - intros c r [_ ->]%rfm_df_elem_of. simpl. split.
    + by rewrite length_fmap.
    + rewrite foldl_Qplus. ring.
Qed.

Lemma rfm_one_record_per_customer_witness :
  (7%Z, {| Recency := Some 1%Z; Frequency := 2; Monetary := 59 # 2 |})
    ∈ rfm_df example_orders /\
  2%nat = length (transactions_of 7 example_orders) /\
  (59 # 2 == total (OrderValue <$> transactions_of 7 example_orders))%Q.
Proof.
  assert (Hin : (7%Z, {| Recency := Some 1%Z; Frequency := 2; Monetary := 59 # 2 |})
                  ∈ rfm_df example_orders).
  { apply list_elem_of_In. vm_compute. right. left. reflexivity. }
  split; [exact Hin|].
  destruct (rfm_one_record_per_customer example_orders) as (_ & _ & Hrec).
  exact (Hrec 7%Z _ Hin).
Defined.

(** *** Recency *)

Lemma foldl_max_spec (d : Z) (ds : list Z) :
  latest_of (d :: ds) (foldl Z.max d ds).
Proof.
  revert d. induction ds as [|e ds IH]; intros d; simpl.
  - split; [by left|]. intros x ->%list_elem_of_singleton. lia.
  - destruct (IH (Z.max d e)) as [Hin Hall]. split.
    + apply elem_of_cons in Hin as [Heq|Hin].
      * rewrite Heq. destruct (Z.max_spec d e) as [[_ ->]|[_ ->]].
        -- right. by left.
        -- by left.
      * by do 2 right.
    + intros x Hx.
      assert (Hmax : (Z.max d e <= foldl Z.max (Z.max d e) ds)%Z).
      { apply Hall. by left. }
      apply elem_of_cons in Hx as [->|Hx]; [lia|].
      apply elem_of_cons in Hx as [->|Hx]; [lia|].
      apply Hall. by right.
Qed.

Lemma column_max_spec (ds : list Z) :
  ds <> [] -> exists m, column_max ds = Some m /\ latest_of ds m.
Proof.
  destruct ds as [|d ds]; [done|]. intros _.
  eexists. split; [done|]. apply foldl_max_spec.
Qed.

Lemma days_ge_one (delta : Z) : (one_day <= delta)%Z -> (1 <= days delta)%Z.
Proof.
  intros H. unfold days. apply Z.div_le_lower_bound; [done|]. lia.
Qed.

Lemma days_one_day : days one_day = 1%Z.
Proof. reflexivity. Qed.

Lemma transactions_of_nonempty c df :
  c ∈ CustomerID <$> df -> OrderDate <$> transactions_of c df <> [].
Proof.
  intros (t & -> & Hin)%list_elem_of_fmap Hnil.
  apply fmap_nil_inv in Hnil.
  apply (filter_nil_not_elem_of _ _ t) in Hnil; done.
Qed.

(** What the aggregation computes for a customer of a non-empty frame. *)
Lemma recency_of_customer df c (r : rfm) :
  (c, r) ∈ rfm_df df ->
  exists top latest,
    latest_of (OrderDate <$> df) top /\
    snapshot_date df = Some (top + one_day)%Z /\
    latest_of (OrderDate <$> transactions_of c df) latest /\
    Recency r = Some (days (top + one_day - latest)) /\
    (latest <= top)%Z.
Proof.
  intros [Hc ->]%rfm_df_elem_of.
  destruct (column_max_spec (OrderDate <$> df)) as (top & Htop & Hlatest).
  { intros Hnil%fmap_nil_inv. subst df. by apply elem_of_nil in Hc. }
  destruct (column_max_spec (OrderDate <$> transactions_of c df))
    as (latest & Hmax & Hlatest_c).
  { by apply transactions_of_nonempty. }
  exists top, latest. unfold snapshot_date. rewrite Htop. simpl.
  rewrite Hmax. simpl.
  split; [exact Hlatest|]. split; [done|]. split; [exact Hlatest_c|].
  split; [done|].
  destruct Hlatest_c as [(t & -> & Ht)%list_elem_of_fmap _].
  apply (proj2 Hlatest). apply list_elem_of_fmap_2.
  by apply list_elem_of_filter in Ht as [_ Ht].
Qed.

Lemma days_floor (delta : Z) :
  (86400000000000 * days delta <= delta < 86400000000000 * (days delta + 1))%Z.
Proof.
  unfold days, one_day.
  pose proof (Z.mul_div_le delta 86400000000000).
  pose proof (Z.mul_succ_div_gt delta 86400000000000).
  lia.
Qed.

(** C4.  The snapshot date is one day (86 400 000 000 000 ns) after the
    latest OrderDate of the frame.  A customer's Recency is the number of
    whole days from that customer's latest OrderDate to the snapshot
    date: the integer [n] with [n] days <= snapshot - latest < [n + 1]
    days.  It is not negative. *)
Theorem recency_is_days_since_latest_order df c (r : rfm) :
  df <> [] ->
  (c, r) ∈ rfm_df df ->
  exists top latest n,
    latest_of (OrderDate <$> df) top /\
    snapshot_date df = Some (top + 86400000000000)%Z /\
    latest_of (OrderDate <$> transactions_of c df) latest /\
    Recency r = Some n /\
    (86400000000000 * n <= (top + 86400000000000) - latest
     < 86400000000000 * (n + 1))%Z /\
    (0 <= n)%Z.
Proof.
  intros _ (top & latest & Htop & Hsnap & Hlatest & Hrec & Hle)%recency_of_customer.
  exists top, latest, (days (top + one_day - latest)).
  split; [exact Htop|]. split; [exact Hsnap|]. split; [exact Hlatest|].
  split; [exact Hrec|].
  split; [apply (days_floor (top + one_day - latest))|].
  pose proof (days_ge_one (top + one_day - latest)). lia.
Qed.

Lemma recency_is_days_since_latest_order_witness :
  example_orders <> [] /\
  (3%Z, {| Recency := Some 31%Z; Frequency := 1; Monetary := 10 # 1 |})
    ∈ rfm_df example_orders /\
  exists top latest n,
    latest_of (OrderDate <$> example_orders) top /\
    snapshot_date example_orders = Some (top + 86400000000000)%Z /\
    latest_of (OrderDate <$> transactions_of 3 example_orders) latest /\
    Some 31%Z = Some n /\
    (86400000000000 * n <= (top + 86400000000000) - latest
     < 86400000000000 * (n + 1))%Z /\
    (0 <= n)%Z.
Proof.
  assert (Hne : example_orders <> []) by discriminate.
  assert (Hin : (3%Z, {| Recency := Some 31%Z; Frequency := 1; Monetary := 10 # 1 |})
                  ∈ rfm_df example_orders).
  { apply list_elem_of_In. vm_compute. left. reflexivity. }
  split; [exact Hne|]. split; [exact Hin|].
  exact (recency_is_days_since_latest_order example_orders 3%Z _ Hne Hin).
Defined.

(** C9.  Every Recency of the RFM frame is at least one day, and it is
    exactly one day for a customer who holds the latest order of the
    frame. *)
Theorem recency_is_at_least_one_day df c (r : rfm) :
  df <> [] ->
  (c, r) ∈ rfm_df df ->
  exists n,
    Recency r = Some n /\ (1 <= n)%Z /\
    (forall t, t ∈ df -> CustomerID t = c ->
               latest_of (OrderDate <$> df) (OrderDate t) -> n = 1%Z).
Proof.
  intros _ (top & latest & Htop & Hsnap & Hlatest & Hrec & Hle)%recency_of_customer.
  exists (days (top + one_day - latest)). split; [done|]. split.
  - apply days_ge_one. lia.
  - intros t Ht Hc [_ Hlast].
    assert (Hdate : (OrderDate t <= latest)%Z).
    { apply (proj2 Hlatest). apply list_elem_of_fmap_2.
      by apply list_elem_of_filter. }
    assert (Htop' : (top <= OrderDate t)%Z) by apply Hlast, (proj1 Htop).
    replace (top + one_day - latest)%Z with one_day by lia.
    apply days_one_day.
Qed.

Lemma recency_is_at_least_one_day_witness :
  example_orders <> [] /\
  (7%Z, {| Recency := Some 1%Z; Frequency := 2; Monetary := 59 # 2 |})
    ∈ rfm_df example_orders /\
  exists n,
    Some 1%Z = Some n /\ (1 <= n)%Z /\
    (forall t, t ∈ example_orders -> CustomerID t = 7%Z ->
               latest_of (OrderDate <$> example_orders) (OrderDate t) -> n = 1%Z).
Proof.
  assert (Hne : example_orders <> []) by discriminate.
  assert (Hin : (7%Z, {| Recency := Some 1%Z; Frequency := 2; Monetary := 59 # 2 |})
                  ∈ rfm_df example_orders).
  { apply list_elem_of_In. vm_compute. right. left. reflexivity. }
  split; [exact Hne|]. split; [exact Hin|].
  exact (recency_is_at_least_one_day example_orders 7%Z _ Hne Hin).
Defined.

End RfmProps.

(** ** Properties of the segment labeler *)
Module LabelerProps.
Import Frame FrameFacts Segmentation.

Implicit Types (cluster_profile : list profile_row) (m : gmap Z string).

Lemma by_recency_Permutation cluster_profile :
  by_recency cluster_profile ≡ₚ Cluster <$> cluster_profile.
Proof. unfold by_recency. by rewrite sort_values_Permutation. Qed.

Lemma by_frequency_Permutation cluster_profile :
  by_frequency cluster_profile ≡ₚ Cluster <$> cluster_profile.
Proof. unfold by_frequency. by rewrite sort_values_Permutation. Qed.

Lemma by_recency_length cluster_profile :
  length (by_recency cluster_profile) = length cluster_profile.
Proof. by rewrite by_recency_Permutation, length_fmap. Qed.

Lemma by_frequency_length cluster_profile :
  length (by_frequency cluster_profile) = length cluster_profile.
Proof. by rewrite by_frequency_Permutation, length_fmap. Qed.

(** The dict built from four entries, in the order of the literal. *)
Lemma segment_map_Ok cluster_profile (k0 k1 k2 k3 : Z) :
  by_recency cluster_profile !! 0%nat = Some k0 ->
  by_recency cluster_profile !! 1%nat = Some k1 ->
  by_frequency cluster_profile !! 2%nat = Some k2 ->
  by_frequency cluster_profile !! 3%nat = Some k3 ->
  segment_map cluster_profile =
  Ok (<[k3 := "Hibernating"]>
      (<[k2 := "At-Risk"]>
       (<[k1 := "Loyal Customers"]>
        (<[k0 := "Champions"]> ∅)))).
Proof.
  intros H0 H1 H2 H3. unfold segment_map, iloc.
  by rewrite H0, H1, H2, H3.
Qed.

Lemma segment_map_Raise cluster_profile :
  (length cluster_profile < 4)%nat -> segment_map cluster_profile = Raise IndexError.
Proof.
  intros Hlen. unfold segment_map, iloc.
  destruct (by_recency cluster_profile !! 0%nat); [|done].
  destruct (by_recency cluster_profile !! 1%nat); [|done].
  destruct (by_frequency cluster_profile !! 2%nat); [|done].
  rewrite (proj2 (lookup_ge_None _ 3%nat)); [done|].
  rewrite by_frequency_length. lia.
Qed.

(** Four different ids of a four-element list without repetition are
    all its ids. *)
Lemma four_distinct_cover (ids ks : list Z) :
  NoDup ids -> length ids = length ks ->
  (NoDup ks /\ ks ⊆ ids) <-> ids ⊆ ks.
Proof.
  intros Hnd Hlen. split.
  - intros [Hks Hsub].
    assert (Hperm : ks ≡ₚ ids).
    { apply submseteq_length_Permutation; [by apply NoDup_submseteq | lia]. }
    intros c. by rewrite Hperm.
  - intros Hsub.
    assert (Hperm : ids ≡ₚ ks).
    { apply submseteq_length_Permutation; [by apply NoDup_submseteq | lia]. }
    split; [by rewrite <- Hperm|]. intros c. by rewrite Hperm.
Qed.

Lemma lookup_in_profile cluster_profile (l : list Z) (i : nat) (k : Z) :
  l ≡ₚ Cluster <$> cluster_profile -> l !! i = Some k ->
  k ∈ Cluster <$> cluster_profile.
Proof. intros Hperm Hk. rewrite <- Hperm. by eapply list_elem_of_lookup_2. Qed.

Lemma lookup_distinct cluster_profile (l : list Z) (i j : nat) (k k' : Z) :
  NoDup (Cluster <$> cluster_profile) ->
  l ≡ₚ Cluster <$> cluster_profile ->
  l !! i = Some k -> l !! j = Some k' -> i <> j -> k <> k'.
Proof.
  intros Hnd Hperm Hk Hk' Hij ->. apply Hij.
  rewrite <- Hperm in Hnd. by eapply NoDup_lookup.
Qed.

(** C1, as the code has it.  For a profile with distinct cluster ids the
    labeler raises an index error when there are fewer than four
    clusters and otherwise returns a dict.  [rows_r] is the profile
    arranged by ascending mean Recency and [rows_f] the profile arranged
    by descending mean Frequency (rows with equal means in some order);
    [k0] and [k1] are the clusters at ranks 0 and 1 of the first, [k2]
    and [k3] the clusters at ranks 2 and 3 of the second.  The dict
    labels exactly these clusters: [k3] and [k2] are "Hibernating" and
    "At-Risk"; [k1] and [k0] are "Loyal Customers" and "Champions" unless
    the Frequency order selects them too.  With four clusters, every
    cluster has a label exactly when the two lowest-Recency clusters are
    not among Frequency ranks 2 and 3.  A cluster never has two labels:
    the label is the value of a dict lookup. *)
Theorem segment_map_labels cluster_profile :
  NoDup (Cluster <$> cluster_profile) ->
  match segment_map cluster_profile with
  | Raise e => e = IndexError /\ (length cluster_profile < 4)%nat
  | Ok m =>
      (4 <= length cluster_profile)%nat /\
      exists (rows_r rows_f : list profile_row) (k0 k1 k2 k3 : Z),
        rows_r ≡ₚ cluster_profile /\
        StronglySorted (fun a b => Recency_mean a <= Recency_mean b)%Q rows_r /\
        by_recency cluster_profile = Cluster <$> rows_r /\
        rows_f ≡ₚ cluster_profile /\
        StronglySorted (fun a b => Frequency_mean b <= Frequency_mean a)%Q rows_f /\
        by_frequency cluster_profile = Cluster <$> rows_f /\
        by_recency cluster_profile !! 0%nat = Some k0 /\
        by_recency cluster_profile !! 1%nat = Some k1 /\
        by_frequency cluster_profile !! 2%nat = Some k2 /\
        by_frequency cluster_profile !! 3%nat = Some k3 /\
        (forall c, is_Some (Segment m c) <-> c ∈ [k0; k1; k2; k3]) /\
        Segment m k3 = Some "Hibernating" /\
        Segment m k2 = Some "At-Risk" /\
        (k1 ∉ [k2; k3] -> Segment m k1 = Some "Loyal Customers") /\
        (k0 ∉ [k2; k3] -> Segment m k0 = Some "Champions") /\
        (length cluster_profile = 4%nat ->
         (forall row, row ∈ cluster_profile -> is_Some (Segment m (Cluster row)))
         <-> ((k0 ∉ [k2; k3]) /\ (k1 ∉ [k2; k3])))
  end.
Proof.
  intros Hnd.
  destruct (decide (length cluster_profile < 4)%nat) as [Hlt|Hge].
  { by rewrite segment_map_Raise. }
  destruct (lookup_lt_is_Some_2 (by_recency cluster_profile) 0%nat) as [k0 H0].
  { rewrite by_recency_length. lia. }
  destruct (lookup_lt_is_Some_2 (by_recency cluster_profile) 1%nat) as [k1 H1].
  { rewrite by_recency_length. lia. }
  destruct (lookup_lt_is_Some_2 (by_frequency cluster_profile) 2%nat) as [k2 H2].
  { rewrite by_frequency_length. lia. }
  destruct (lookup_lt_is_Some_2 (by_frequency cluster_profile) 3%nat) as [k3 H3].
  { rewrite by_frequency_length. lia. }
  rewrite (segment_map_Ok _ k0 k1 k2 k3) by done.
  pose proof (by_recency_Permutation cluster_profile) as Hpr.
  pose proof (by_frequency_Permutation cluster_profile) as Hpf.
  assert (H01 : k0 <> k1).
  { apply (lookup_distinct cluster_profile _ 0 1 k0 k1 Hnd Hpr H0 H1). lia. }
  assert (H23 : k2 <> k3).
  { apply (lookup_distinct cluster_profile _ 2 3 k2 k3 Hnd Hpf H2 H3). lia. }
  assert (Hks : [k0; k1; k2; k3] ⊆ Cluster <$> cluster_profile).
  { intros c Hc. rewrite !elem_of_cons, elem_of_nil in Hc.
    destruct Hc as [->|[->|[->|[->|[]]]]]; eauto using lookup_in_profile. }
  assert (Hdom : forall c,
             is_Some (Segment (<[k3 := "Hibernating"]>
                               (<[k2 := "At-Risk"]>
                                (<[k1 := "Loyal Customers"]>
                                 (<[k0 := "Champions"]> ∅)))) c)
             <-> c ∈ [k0; k1; k2; k3]).
  { intros c. unfold Segment.
    rewrite !lookup_insert_is_Some', lookup_empty, !elem_of_cons, elem_of_nil.
    split; [|intuition congruence].
    intros [?|[?|[?|[?|Hnone]]]]; [intuition congruence..|]. by destruct Hnone. }
  split; [lia|].
  exists (sort_values Recency_mean false cluster_profile),
         (sort_values Frequency_mean true cluster_profile), k0, k1, k2, k3.
  split; [apply sort_values_Permutation|].
  split; [exact (sort_values_sorted Recency_mean false cluster_profile)|].
  split; [reflexivity|].
  split; [apply sort_values_Permutation|].
  split; [exact (sort_values_sorted Frequency_mean true cluster_profile)|].
  split; [reflexivity|].
  do 4 (split; [done|]). split; [exact Hdom|].
  unfold Segment in *.
  split; [by rewrite lookup_insert_eq|].
  split; [by rewrite lookup_insert_ne, lookup_insert_eq|].
  split.
  { rewrite !elem_of_cons, elem_of_nil. intros Hk1.
    rewrite !lookup_insert_ne, lookup_insert_eq by intuition congruence. done. }
  split.
  { rewrite !elem_of_cons, elem_of_nil. intros Hk0.
    rewrite !lookup_insert_ne, lookup_insert_eq by intuition congruence. done. }
  intros Hlen.
  transitivity (Cluster <$> cluster_profile ⊆ [k0; k1; k2; k3]).
  { split.
    - intros Hall c (row & -> & Hrow)%list_elem_of_fmap.
      apply Hdom, Hall, Hrow.
    - intros Hsub row Hrow. apply Hdom, Hsub. by apply list_elem_of_fmap_2. }
  rewrite <- four_distinct_cover by (rewrite ?length_fmap; done).
  rewrite !NoDup_cons, !elem_of_cons, !elem_of_nil.
  split; [intuition congruence|].
  intros [Hk0 Hk1]. split; [|done].
  split; [intuition congruence|]. split; [intuition congruence|]. split; [intuition congruence|].
  split; [intuition congruence|]. apply NoDup_nil_2.
Qed.

Lemma separated_profile_distinct : NoDup (Cluster <$> separated_profile).
Proof.
  change (NoDup [0; 1; 2; 3]%Z).
  repeat (apply NoDup_cons_2;
          [rewrite ?elem_of_cons, elem_of_nil; intuition discriminate|]).
  apply NoDup_nil_2.
Defined.

Lemma segment_map_labels_witness :
  NoDup (Cluster <$> separated_profile) /\
  exists m, segment_map separated_profile = Ok m /\
            forall row, row ∈ separated_profile -> is_Some (Segment m (Cluster row)).
Proof.
  split; [exact separated_profile_distinct|].
  pose proof (segment_map_labels separated_profile separated_profile_distinct) as H.
  destruct (segment_map separated_profile) as [m|e].
  - exists m. split; [reflexivity|].
    destruct H as (_ & rows_r & rows_f & k0 & k1 & k2 & k3 & _ & _ & _ & _ & _ & _
                   & H0 & H1 & H2 & H3 & _ & _ & _ & _ & _ & Hall).
    vm_compute in H0, H1, H2, H3.
    injection H0 as <-. injection H1 as <-. injection H2 as <-. injection H3 as <-.
    apply Hall; [reflexivity|].
    rewrite !elem_of_cons, !elem_of_nil. intuition discriminate.
  - destruct H as [_ Hlt]. vm_compute in Hlt. lia.
Defined.

(** A cluster of the profile without a label refutes the property. *)
Lemma unlabeled_cluster_refutes cluster_profile m (row : profile_row) :
  segment_map cluster_profile = Ok m ->
  row ∈ cluster_profile ->
  Segment m (Cluster row) = None ->
  ~ labels_every_cluster cluster_profile.
Proof.
  intros Hm Hrow Hnone Hall. unfold labels_every_cluster in Hall.
  rewrite Hm in Hall. specialize (Hall row Hrow).
  rewrite Hnone in Hall. by apply is_Some_None in Hall.
Qed.

(** C1 fails as stated: on the typical profile the labeler raises
    nothing; cluster 2 is selected by both sort orders and keeps
    "At-Risk", and cluster 3 is left without a label. *)
Lemma typical_profile_leaves_cluster_unlabeled :
  (exists m, segment_map typical_profile = Ok m /\
             Segment m 0 = Some "Champions" /\
             Segment m 1 = Some "Hibernating" /\
             Segment m 2 = Some "At-Risk" /\
             Segment m 3 = None) /\
  ~ labels_every_cluster typical_profile.
Proof.
  split.
  - eexists. split; [reflexivity|]. by vm_compute.
  - eapply (unlabeled_cluster_refutes _ _ (profile 3 (75 # 1) (46 # 10) (90025 # 100) 35)).
    + reflexivity.
    + unfold typical_profile. do 3 right. left.
    + by vm_compute.
Qed.

End LabelerProps.

(** ** Properties of the scaling *)
Module ScalingProps.
Import Reals Lra Scaling.
Local Open Scope R_scope.

Lemma expm1_log1p (x : R) : -1 < x -> expm1 (log1p x) = x.
Proof.
  intros Hx. unfold expm1, log1p. rewrite exp_ln by lra. lra.
Qed.

Lemma scale_of_nonzero (xs : list R) : std xs <> 0 -> scale_of xs = std xs.
Proof. intros Hs. unfold scale_of. by destruct (Req_dec_T (std xs) 0). Qed.

(** One column: de-standardizing and [expm1] undo [log1p] and the
    standardization, whatever the column of logs [xs] is. *)
Lemma unscale_standardize (xs : list R) (x : R) :
  std xs <> 0 -> -1 < x -> unscale xs (standardize xs (log1p x)) = x.
Proof.
  intros Hs Hx. unfold unscale, standardize.
  rewrite scale_of_nonzero by done.
  replace ((log1p x - mean xs) / std xs * std xs + mean xs) with (log1p x)
    by (field; done).
  by apply expm1_log1p.
Qed.

Lemma var_pair (a b : R) : var [a; b] = Rsqr ((a - b) / 2).
Proof. unfold var, mean, Rsqr. simpl. field. Qed.

Lemma std_pair_nonzero (a b : R) : a <> b -> std [a; b] <> 0.
Proof.
  intros Hab Hstd. unfold std in Hstd. rewrite var_pair in Hstd.
  apply sqrt_eq_0 in Hstd; [|apply Rle_0_sqr].
  apply Rsqr_eq_0 in Hstd. lra.
Qed.

Lemma log1p_inj (x y : R) : -1 < x -> -1 < y -> log1p x = log1p y -> x = y.
Proof.
  intros Hx Hy Heq. unfold log1p in Heq. apply ln_inv in Heq; lra.
Qed.

Lemma map_fixes {A} (g : A -> A) (l : list A) :
  (forall x, List.In x l -> g x = x) -> map g l = l.
Proof.
  intros Hg. rewrite <- (List.map_id l) at 2. by apply List.map_ext_in.
Qed.

(** C6.  When every RFM value lies in the domain of [log1p] (as the
    non-negative RFM values do) and no column of logs has standard
    deviation zero, the inverse transform applied to the scaled rows
    gives back the RFM rows.  Arithmetic is exact. *)
Theorem scaling_round_trip (rfm_df : list row) :
  Forall (fun r => -1 < recency r /\ -1 < frequency r /\ -1 < monetary r) rfm_df ->
  std (map recency (rfm_log rfm_df)) <> 0 ->
  std (map frequency (rfm_log rfm_df)) <> 0 ->
  std (map monetary (rfm_log rfm_df)) <> 0 ->
  map (inverse_transform rfm_df) (rfm_scaled rfm_df) = rfm_df.
Proof.
  intros Hdom Hr Hf Hm. unfold rfm_scaled, fit_transform.
  rewrite List.map_map. unfold rfm_log at 4. rewrite List.map_map.
  apply map_fixes. intros [r f m] Hin.
  rewrite Forall_forall in Hdom.
  destruct (Hdom {| recency := r; frequency := f; monetary := m |})
    as (Hr1 & Hf1 & Hm1); [by apply list_elem_of_In|]. simpl in Hr1, Hf1, Hm1.
  unfold inverse_transform. simpl.
  by rewrite !unscale_standardize.
Qed.

Lemma scaling_round_trip_witness :
  Forall (fun r => -1 < recency r /\ -1 < frequency r /\ -1 < monetary r) example_rfm /\
  std (map recency (rfm_log example_rfm)) <> 0 /\
  std (map frequency (rfm_log example_rfm)) <> 0 /\
  std (map monetary (rfm_log example_rfm)) <> 0 /\
  map (inverse_transform example_rfm) (rfm_scaled example_rfm) = example_rfm.
Proof.
  assert (Hdom : Forall (fun r => -1 < recency r /\ -1 < frequency r /\ -1 < monetary r)
                        example_rfm).
  { repeat constructor; simpl; lra. }
  assert (Hr : std (map recency (rfm_log example_rfm)) <> 0).
  { simpl. apply std_pair_nonzero. intros H%log1p_inj; lra. }
  assert (Hf : std (map frequency (rfm_log example_rfm)) <> 0).
  { simpl. apply std_pair_nonzero. intros H%log1p_inj; lra. }
  assert (Hm : std (map monetary (rfm_log example_rfm)) <> 0).
  { simpl. apply std_pair_nonzero. intros H%log1p_inj; lra. }
  repeat (split; [assumption|]).
  exact (scaling_round_trip example_rfm Hdom Hr Hf Hm).
Defined.

End ScalingProps.

(** ** Further properties of the RFM aggregation *)
Module RfmExtras.
Import Frame Segmentation RfmProps.

Implicit Types (t : transaction) (df : list transaction) (c k : Z).
Implicit Types (gs : list (Z * list transaction)).

(** *** Order of the index *)

(** X1.  The index of the RFM frame is strictly ascending in CustomerID,
    whatever the order of the transactions. *)
Theorem rfm_index_ascending df : StronglySorted Z.lt (rfm_df df).*1.
Proof. rewrite rfm_df_keys. apply groupby_sorted. Qed.

(** *** Totals *)

Lemma add_row_size t gs :
  sum_list_with (fun g => length g.2) (add_row t gs) =
  S (sum_list_with (fun g => length g.2) gs).
Proof.
  induction gs as [|[k rows] gs IH]; simpl; [done|].
  destruct (Z.ltb_spec (CustomerID t) k) as [Hlt|Hge]; simpl; [done|].
  destruct (Z.eqb_spec (CustomerID t) k) as [Heq|Hne]; simpl.
  - rewrite length_app. simpl. lia.
  - rewrite IH. lia.
Qed.

Lemma groupby_size df :
  sum_list_with (fun g => length g.2) (groupby df) = length df.
Proof.
  induction df as [|t df IH] using rev_ind; [done|].
  rewrite groupby_snoc, add_row_size, IH, length_app. simpl. lia.
Qed.

(** X2.  Every record of the RFM frame has Frequency at least 1, and the
    Frequencies add up to the number of transactions of the input. *)
Theorem frequencies_add_up df :
  Forall (fun cr => (1 <= Frequency cr.2)%nat) (rfm_df df) /\
  sum_list_with (fun cr => Frequency cr.2) (rfm_df df) = length df.
Proof.
  split.
  - apply Forall_forall. intros [c r] [Hc ->]%rfm_df_elem_of. simpl.
    rewrite length_fmap.
    pose proof (transactions_of_nonempty c df Hc) as Hne.
    destruct (transactions_of c df); [done | simpl; lia].
  - rewrite <- groupby_size. unfold rfm_df.
    induction (groupby df) as [|g gs IH]; csimpl; [done|].
    by rewrite IH, length_fmap.
Qed.

Lemma total_cons (v : Q) (l : list Q) : total (v :: l) = (v + total l)%Q.
Proof. reflexivity. Qed.

Lemma total_app (l1 l2 : list Q) : (total (l1 ++ l2) == total l1 + total l2)%Q.
Proof.
  induction l1 as [|v l1 IH].
  - change (total []) with 0%Q. rewrite app_nil_l. ring.
  - rewrite <- app_comm_cons, !total_cons, IH. ring.
Qed.

Lemma add_row_total t gs :
  (total ((fun g => total (OrderValue <$> g.2)) <$> add_row t gs) ==
   total ((fun g => total (OrderValue <$> g.2)) <$> gs) + OrderValue t)%Q.
Proof.
  induction gs as [|[k rows] gs IH]; cbn [add_row].
  - rewrite !fmap_cons, !fmap_nil, !total_cons. cbn [snd].
    rewrite !fmap_cons, !fmap_nil, !total_cons. change (total []) with 0%Q. ring.
  - destruct (Z.ltb_spec (CustomerID t) k) as [Hlt|Hge].
    { rewrite !fmap_cons, !total_cons. cbn [snd].
      rewrite !fmap_cons, !fmap_nil, !total_cons. change (total []) with 0%Q. ring. }
    destruct (Z.eqb_spec (CustomerID t) k) as [Heq|Hne].
    + rewrite !fmap_cons, !total_cons. cbn [snd].
      rewrite fmap_app, total_app, !fmap_cons, !fmap_nil, !total_cons.
      change (total []) with 0%Q. ring.
    + rewrite !fmap_cons, !total_cons, IH. ring.
Qed.

Lemma groupby_total df :
  (total ((fun g => total (OrderValue <$> g.2)) <$> groupby df) ==
   total (OrderValue <$> df))%Q.
Proof.
  induction df as [|t df IH] using rev_ind; [reflexivity|].
  rewrite groupby_snoc, add_row_total, IH, fmap_app, total_app.
  rewrite !fmap_cons, !fmap_nil, !total_cons. change (total []) with 0%Q. ring.
Qed.

(** X3.  The Monetary values of the RFM frame add up to the sum of all
    OrderValue of the input (in exact arithmetic). *)
Theorem monetary_adds_up df :
  (total ((fun cr => Monetary cr.2) <$> rfm_df df) == total (OrderValue <$> df))%Q.
Proof.
  rewrite <- groupby_total. unfold rfm_df.
  induction (groupby df) as [|g gs IH]; [reflexivity|].
  rewrite !fmap_cons, !total_cons, IH. cbn [snd agg Monetary].
  rewrite foldl_Qplus. ring.
Qed.

(** *** Recency and the order of the rows *)

Lemma latest_of_unique (ds : list Z) (m m' : Z) :
  latest_of ds m -> latest_of ds m' -> m = m'.
Proof.
  intros [Hin Hall] [Hin' Hall'].
  apply Z.le_antisymm; [by apply Hall' | by apply Hall].
Qed.

Lemma days_mono (a b : Z) : (a <= b)%Z -> (days a <= days b)%Z.
Proof. intros H. unfold days. by apply Z.div_le_mono. Qed.

(** X4.  Recency orders customers by their latest order: a customer whose
    latest OrderDate is not earlier than another's has a Recency that is
    not larger. *)
Theorem recency_antitone df c1 c2 (r1 r2 : rfm) (latest1 latest2 : Z) :
  (c1, r1) ∈ rfm_df df ->
  (c2, r2) ∈ rfm_df df ->
  latest_of (OrderDate <$> transactions_of c1 df) latest1 ->
  latest_of (OrderDate <$> transactions_of c2 df) latest2 ->
  (latest1 <= latest2)%Z ->
  exists n1 n2, Recency r1 = Some n1 /\ Recency r2 = Some n2 /\ (n2 <= n1)%Z.
Proof.
  intros (top1 & l1 & Htop1 & _ & Hl1 & Hrec1 & _)%recency_of_customer
         (top2 & l2 & Htop2 & _ & Hl2 & Hrec2 & _)%recency_of_customer
         Hlatest1 Hlatest2 Hle.
  rewrite (latest_of_unique _ _ _ Hl1 Hlatest1) in Hrec1.
  rewrite (latest_of_unique _ _ _ Hl2 Hlatest2) in Hrec2.
  rewrite (latest_of_unique _ _ _ Htop2 Htop1) in Hrec2.
  eexists _, _. split; [exact Hrec1|]. split; [exact Hrec2|].
  apply days_mono. lia.
Qed.

Lemma recency_antitone_witness :
  exists n1 n2, Some 31%Z = Some n1 /\ Some 1%Z = Some n2 /\ (n2 <= n1)%Z.
Proof.
  apply (recency_antitone example_orders 3 7
           {| Recency := Some 31%Z; Frequency := 1; Monetary := 10 # 1 |}
           {| Recency := Some 1%Z; Frequency := 2; Monetary := 59 # 2 |}
           (90 * one_day) (120 * one_day)).
  - apply list_elem_of_In. vm_compute. left. reflexivity.
  - apply list_elem_of_In. vm_compute. right. left. reflexivity.
  - split.
    + apply list_elem_of_In. vm_compute. left. reflexivity.
    + intros d Hd%list_elem_of_In. vm_compute in Hd.
      destruct Hd as [<-|[]]. done.
  - split.
    + apply list_elem_of_In. vm_compute. right. left. reflexivity.
    + intros d Hd%list_elem_of_In. vm_compute in Hd.
      destruct Hd as [<-|[<-|[]]]; done.
  - done.
Defined.

Lemma column_max_Permutation (ds ds' : list Z) :
  ds ≡ₚ ds' -> column_max ds = column_max ds'.
Proof.
  intros Hperm. destruct (decide (ds = [])) as [->|Hne].
  { apply Permutation_nil_l in Hperm. by subst. }
  assert (Hne' : ds' <> []).
  { intros ->. by apply Permutation_nil_r in Hperm. }
  destruct (column_max_spec ds Hne) as (m & -> & Hin & Hall).
  destruct (column_max_spec ds' Hne') as (m' & -> & Hin' & Hall').
  f_equal. apply Z.le_antisymm.
  - apply Hall'. by rewrite <- Hperm.
  - apply Hall. by rewrite Hperm.
Qed.

(** The RFM frame, read off the keys of the grouping. *)
Lemma rfm_df_by_key df :
  rfm_df df =
  (fun c => (c, agg (snapshot_date df) (transactions_of c df))) <$> (groupby df).*1.
Proof.
  unfold rfm_df. rewrite <- list_fmap_compose.
  apply list_fmap_ext. intros i [c rows] Hin%list_elem_of_lookup_2. simpl.
  apply groupby_elem_of in Hin as [_ ->]. done.
Qed.

Lemma groupby_keys_Permutation df df' :
  df ≡ₚ df' -> (groupby df).*1 = (groupby df').*1.
Proof.
  intros Hperm.
  apply (StronglySorted_unique_strong Z.lt);
    [intros; lia | apply groupby_sorted | apply groupby_sorted |].
  apply NoDup_Permutation; [apply sorted_keys_NoDup, groupby_sorted..|].
  intros c. rewrite !groupby_keys. by rewrite Hperm.
Qed.

(** X5.  The order of the transaction rows does not matter for the
    customers listed, their order, their Recency and their Frequency. *)
Theorem rfm_row_order_invariant df df' :
  df ≡ₚ df' ->
  (rfm_df df).*1 = (rfm_df df').*1 /\
  (fun cr => Recency cr.2) <$> rfm_df df = (fun cr => Recency cr.2) <$> rfm_df df' /\
  (fun cr => Frequency cr.2) <$> rfm_df df = (fun cr => Frequency cr.2) <$> rfm_df df'.
Proof.
  intros Hperm.
  pose proof (groupby_keys_Permutation df df' Hperm) as Hkeys.
  assert (Hsnap : snapshot_date df = snapshot_date df').
  { unfold snapshot_date. f_equal. apply column_max_Permutation. by rewrite Hperm. }
  assert (Hrows : forall c, transactions_of c df ≡ₚ transactions_of c df').
  { intros c. unfold transactions_of. by rewrite Hperm. }
  split; [by rewrite !rfm_df_keys|].
  rewrite !rfm_df_by_key, <- Hkeys, <- Hsnap, <- !list_fmap_compose.
  split; apply list_fmap_ext; intros i [c rows] _; simpl.
  - rewrite (column_max_Permutation (OrderDate <$> transactions_of c df)
                                    (OrderDate <$> transactions_of c df')); [done|].
    by rewrite (Hrows c).
  - rewrite !length_fmap. apply Permutation_length, Hrows.
Qed.

Lemma rfm_row_order_invariant_witness :
  example_orders ≡ₚ reverse example_orders /\
  (rfm_df example_orders).*1 = (rfm_df (reverse example_orders)).*1 /\
  (fun cr => Recency cr.2) <$> rfm_df example_orders =
  (fun cr => Recency cr.2) <$> rfm_df (reverse example_orders) /\
  (fun cr => Frequency cr.2) <$> rfm_df example_orders =
  (fun cr => Frequency cr.2) <$> rfm_df (reverse example_orders).
Proof.
  assert (Hperm : example_orders ≡ₚ reverse example_orders).
  { symmetry. apply reverse_Permutation. }
  split; [exact Hperm|].
  exact (rfm_row_order_invariant example_orders (reverse example_orders) Hperm).
Defined.

End RfmExtras.

(** ** Further properties of the scaling *)
Module ScalingExtras.
Import Reals Lra Scaling ScalingProps.
Local Open Scope R_scope.

Lemma sum_shift_scale (a s : R) (l : list R) :
  fold_right Rplus 0 (map (fun x => (x - a) / s) l) = (fold_right Rplus 0 l - INR (length l) * a) / s.
Proof.
  induction l as [|x l IH].
  - simpl. unfold Rdiv. ring.
  - cbn [map fold_right length]. rewrite IH, S_INR. unfold Rdiv. ring.
Qed.

Lemma sum_div (f : R -> R) (k : R) (l : list R) :
  fold_right Rplus 0 (map (fun x => f x / k) l) = fold_right Rplus 0 (map f l) / k.
Proof.
  induction l as [|x l IH].
  - simpl. unfold Rdiv. ring.
  - cbn [map fold_right]. rewrite IH. unfold Rdiv. ring.
Qed.

Lemma sum_sqr_nonneg (f : R -> R) (l : list R) : 0 <= fold_right Rplus 0 (map (fun x => Rsqr (f x)) l).
Proof.
  induction l as [|x l IH]; simpl; [lra|].
  pose proof (Rle_0_sqr (f x)). lra.
Qed.


Lemma INR_length_pos {A} (l : list A) : l <> [] -> 0 < INR (length l).
Proof.
  destruct l; [done|]. intros _. apply lt_0_INR. simpl. lia.
Qed.

Lemma var_nonneg (xs : list R) : 0 <= var xs.
Proof.
  unfold var, mean. rewrite length_map.
  destruct xs as [|x xs].
  - simpl. unfold Rdiv. rewrite Rmult_0_l. lra.
  - apply Rmult_le_pos; [apply (sum_sqr_nonneg (fun y => y - mean (x :: xs)))|].
    apply Rlt_le, Rinv_0_lt_compat, INR_length_pos. done.
Qed.

Lemma scale_of_pos (xs : list R) : 0 < scale_of xs.
Proof.
  unfold scale_of. destruct (Req_dec_T (std xs) 0) as [Hz|Hnz]; [lra|].
  pose proof (sqrt_pos (var xs)). unfold std in *. lra.
Qed.

(** The mean of a standardized column is zero. *)
Lemma mean_standardize (xs : list R) :
  xs <> [] -> mean (map (standardize xs) xs) = 0.
Proof.
  intros Hne. pose proof (INR_length_pos xs Hne) as Hn.
  pose proof (scale_of_pos xs) as Hs.
  unfold mean at 1. rewrite length_map.
  change (map (standardize xs) xs)
    with (map (fun x => (x - mean xs) / scale_of xs) xs).
  rewrite sum_shift_scale. unfold mean. field. lra.
Qed.

(** The variance of a standardized column is the variance of the column
    divided by the square of the scale. *)
Lemma var_standardize (xs : list R) :
  xs <> [] -> var (map (standardize xs) xs) = var xs / Rsqr (scale_of xs).
Proof.
  intros Hne. pose proof (INR_length_pos xs Hne) as Hn.
  pose proof (scale_of_pos xs) as Hs.
  unfold var at 1. rewrite mean_standardize by done.
  unfold mean at 1. rewrite !length_map, List.map_map.
  rewrite (List.map_ext _ (fun x => Rsqr (x - mean xs) / Rsqr (scale_of xs))).
  - rewrite (sum_div (fun x => Rsqr (x - mean xs))).
    unfold var. unfold mean at 2. rewrite length_map. unfold Rsqr. field. lra.
  - intros x. unfold standardize, Rsqr. field. lra.
Qed.

Lemma column_of_fit_transform (col : row -> R) (X : list row) :
  col = recency \/ col = frequency \/ col = monetary ->
  map col (fit_transform X) = map (standardize (map col X)) (map col X).
Proof.
  intros Hcol. unfold fit_transform. rewrite !List.map_map.
  apply List.map_ext. intros r. by destruct Hcol as [->|[->| ->]].
Qed.

(** X6.  Every column of the scaled matrix has mean zero. *)
Theorem rfm_scaled_zero_mean (rfm_df : list row) :
  rfm_df <> [] ->
  mean (map recency (rfm_scaled rfm_df)) = 0 /\
  mean (map frequency (rfm_scaled rfm_df)) = 0 /\
  mean (map monetary (rfm_scaled rfm_df)) = 0.
Proof.
  intros Hne. unfold rfm_scaled.
  assert (Hlog : forall col : row -> R, map col (rfm_log rfm_df) <> []).
  { intros col. destruct rfm_df; [done | discriminate]. }
  rewrite !column_of_fit_transform by tauto.
  repeat split; apply mean_standardize, Hlog.
Qed.

Lemma rfm_scaled_zero_mean_witness :
  example_rfm <> [] /\
  mean (map recency (rfm_scaled example_rfm)) = 0 /\
  mean (map frequency (rfm_scaled example_rfm)) = 0 /\
  mean (map monetary (rfm_scaled example_rfm)) = 0.
Proof.
  assert (Hne : example_rfm <> []) by discriminate.
  split; [exact Hne|]. exact (rfm_scaled_zero_mean example_rfm Hne).
Defined.

Lemma std_standardize (xs : list R) :
  std xs <> 0 -> std (map (standardize xs) xs) = 1.
Proof.
  intros Hs.
  assert (Hne : xs <> []).
  { intros ->. apply Hs. unfold std, var, mean. simpl.
    unfold Rdiv. rewrite Rmult_0_l. apply sqrt_0. }
  unfold std at 1. rewrite var_standardize by done.
  rewrite scale_of_nonzero by done. unfold std.
  rewrite Rsqr_sqrt by apply var_nonneg.
  assert (Hv : var xs <> 0).
  { intros Hv. apply Hs. unfold std. rewrite Hv. apply sqrt_0. }
  replace (var xs / var xs) with 1 by (field; done). apply sqrt_1.
Qed.

(** X7.  A column of the scaled matrix has standard deviation one
    whenever the column of logs it comes from is not constant (its
    standard deviation is not zero). *)
Theorem rfm_scaled_unit_std (rfm_df : list row) :
  (std (map recency (rfm_log rfm_df)) <> 0 ->
   std (map recency (rfm_scaled rfm_df)) = 1) /\
  (std (map frequency (rfm_log rfm_df)) <> 0 ->
   std (map frequency (rfm_scaled rfm_df)) = 1) /\
  (std (map monetary (rfm_log rfm_df)) <> 0 ->
   std (map monetary (rfm_scaled rfm_df)) = 1).
Proof.
  unfold rfm_scaled. rewrite !column_of_fit_transform by tauto.
  repeat split; apply std_standardize.
Qed.

Lemma rfm_scaled_unit_std_witness :
  std (map recency (rfm_log example_rfm)) <> 0 /\
  std (map recency (rfm_scaled example_rfm)) = 1 /\
  std (map frequency (rfm_log example_rfm)) <> 0 /\
  std (map frequency (rfm_scaled example_rfm)) = 1 /\
  std (map monetary (rfm_log example_rfm)) <> 0 /\
  std (map monetary (rfm_scaled example_rfm)) = 1.
Proof.
  destruct (rfm_scaled_unit_std example_rfm) as (Hr & Hf & Hm).
  assert (Hr0 : std (map recency (rfm_log example_rfm)) <> 0).
  { simpl. apply std_pair_nonzero. intros H%log1p_inj; lra. }
  assert (Hf0 : std (map frequency (rfm_log example_rfm)) <> 0).
  { simpl. apply std_pair_nonzero. intros H%log1p_inj; lra. }
  assert (Hm0 : std (map monetary (rfm_log example_rfm)) <> 0).
  { simpl. apply std_pair_nonzero. intros H%log1p_inj; lra. }
  split; [exact Hr0|]. split; [exact (Hr Hr0)|].
  split; [exact Hf0|]. split; [exact (Hf Hf0)|].
  split; [exact Hm0|]. exact (Hm Hm0).
Defined.




Lemma log1p_increasing (x y : R) : -1 < x -> x < y -> log1p x < log1p y.
Proof. intros Hx Hxy. unfold log1p. apply ln_increasing; lra. Qed.

Lemma standardize_increasing (xs : list R) (a b : R) :
  a < b -> standardize xs a < standardize xs b.
Proof.
  intros Hab. pose proof (scale_of_pos xs) as Hs. unfold standardize.
  apply Rmult_lt_compat_r; [by apply Rinv_0_lt_compat | lra].
Qed.

Lemma rfm_scaled_lookup (rfm_df : list row) (i : nat) (r z : row) (col : row -> R) :
  col = recency \/ col = frequency \/ col = monetary ->
  rfm_df !! i = Some r -> rfm_scaled rfm_df !! i = Some z ->
  col z = standardize (map col (rfm_log rfm_df)) (log1p (col r)).
Proof.
  intros Hcol Hr Hz. unfold rfm_scaled, fit_transform in Hz.
  unfold rfm_log at 4 in Hz.
  change (map ?f ?l) with (f <$> l) in Hz.
  rewrite !list_lookup_fmap, Hr in Hz. simpl in Hz.
  injection Hz as <-. by destruct Hcol as [->|[->| ->]].
Qed.

(** X9.  Scaling keeps the ranking of the customers within a column: of
    two customers, the one with the larger Recency (Frequency, Monetary)
    also has the larger scaled value. *)
Theorem scaling_preserves_order
    (rfm_df : list row) (col : row -> R) (i j : nat) (r1 r2 z1 z2 : row) :
  col = recency \/ col = frequency \/ col = monetary ->
  rfm_df !! i = Some r1 -> rfm_df !! j = Some r2 ->
  rfm_scaled rfm_df !! i = Some z1 -> rfm_scaled rfm_df !! j = Some z2 ->
  -1 < col r1 -> col r1 < col r2 ->
  col z1 < col z2.
Proof.
  intros Hcol Hr1 Hr2 Hz1 Hz2 Hdom Hlt.
  rewrite (rfm_scaled_lookup rfm_df i r1 z1 col), (rfm_scaled_lookup rfm_df j r2 z2 col)
    by done.
  by apply standardize_increasing, log1p_increasing.
Qed.

Lemma scaling_preserves_order_witness :
  exists z1 z2,
    rfm_scaled example_rfm !! 0%nat = Some z1 /\
    rfm_scaled example_rfm !! 1%nat = Some z2 /\
    recency z1 < recency z2.
Proof.
  eexists _, _. split; [reflexivity|]. split; [reflexivity|].
  eapply (scaling_preserves_order example_rfm recency 0 1);
    [tauto | reflexivity | reflexivity | reflexivity | reflexivity | simpl; lra | simpl; lra].
Defined.

End ScalingExtras.

(** ** Further properties of the churn cleaner *)
Module ChurnExtras.
Import Frame FrameFacts Churn ChurnProps.

Lemma median_is_Some (col : list (option Q)) :
  dropna col <> [] -> is_Some (median col).
Proof.
  intros Hne. unfold median.
  set (vs := sort_values (fun q => q) false (dropna col)).
  assert (Hlen : length vs <> 0%nat).
  { unfold vs. rewrite sort_values_length. by destruct (dropna col). }
  destruct (Nat.eqb_spec (length vs) 0) as [|_]; [done|].
  assert (Hhalf : (length vs / 2 < length vs)%nat).
  { apply Nat.div_lt; lia. }
  destruct (Nat.even (length vs)).
  - destruct (lookup_lt_is_Some_2 vs (length vs / 2 - 1)%nat) as [a ->]; [lia|].
    destruct (lookup_lt_is_Some_2 vs (length vs / 2)%nat) as [b ->]; [lia|].
    by eexists.
  - by apply lookup_lt_is_Some_2.
Qed.

Lemma median_in_range (col : list (option Q)) (lo hi m : Q) :
  Forall (fun v => lo <= v /\ v <= hi)%Q (dropna col) ->
  median col = Some m -> (lo <= m /\ m <= hi)%Q.
Proof.
  intros Hall. unfold median.
  set (vs := sort_values (fun q => q) false (dropna col)).
  assert (Hvs : forall i v, vs !! i = Some v -> (lo <= v /\ v <= hi)%Q).
  { intros i v Hv%list_elem_of_lookup_2. unfold vs in Hv.
    rewrite sort_values_Permutation in Hv.
    rewrite Forall_forall in Hall. by apply Hall. }
  destruct (Nat.eqb (length vs) 0); [done|].
  destruct (Nat.even (length vs)).
  - destruct (vs !! (length vs / 2 - 1)%nat) as [a|] eqn:Ha; [|done].
    destruct (vs !! (length vs / 2)%nat) as [b|] eqn:Hb; [|done].
    simpl. intros [= <-].
    destruct (Hvs _ _ Ha) as [Ha1 Ha2]. destruct (Hvs _ _ Hb) as [Hb1 Hb2].
    split.
    + apply Qle_shift_div_l; [done|].
      assert (Hdbl : (lo * 2 == lo + lo)%Q) by ring.
      rewrite Hdbl. by apply Qplus_le_compat.
    + apply Qle_shift_div_r; [done|].
      assert (Hdbl : (hi * 2 == hi + hi)%Q) by ring.
      rewrite Hdbl. by apply Qplus_le_compat.
  - intros Hm. by apply (Hvs _ _ Hm).
Qed.

(** The cleaned column, read off the coerced column. *)
Lemma clean_total_charges
    (parse_float : string -> option Q) (copy_on_write : bool) (df : list raw_row) :
  total_charges <$> clean parse_float copy_on_write df =
  (fun x => if copy_on_write then x
            else fillna (median_total_charges parse_float df) x)
    <$> coerced parse_float df.
Proof.
  unfold clean, coerced. change (map ?f df) with (f <$> df).
  rewrite <- !list_fmap_compose. apply list_fmap_ext. intros i r _. simpl.
  by destruct copy_on_write.
Qed.

(** X10.  Without copy-on-write, when at least one TotalCharges value
    coerces, the cleaned frame has no missing TotalCharges left.  With
    copy-on-write the fill does not reach the frame: its TotalCharges
    column is the coerced column, missing values included. *)
Theorem imputation_leaves_no_missing
    (parse_float : string -> option Q) (df : list raw_row) :
  (Exists (fun r => is_Some (to_numeric parse_float (TotalCharges r))) df ->
   Forall (fun c => is_Some (total_charges c)) (clean parse_float false df)) /\
  total_charges <$> clean parse_float true df = coerced parse_float df.
Proof.
  split; [|by rewrite clean_total_charges, list_fmap_id].
  intros Hex.
  assert (Hmed : is_Some (median_total_charges parse_float df)).
  { apply median_is_Some. unfold coerced, dropna.
    apply Exists_exists in Hex as (r & Hr & [q Hq]).
    intros Hnil. apply (not_elem_of_nil q). rewrite <- Hnil.
    apply list_elem_of_omap. exists (Some q). split; [|done].
    rewrite <- Hq. by apply (list_elem_of_fmap_2 (fun r => to_numeric parse_float (TotalCharges r))). }
  unfold clean. apply Forall_fmap, Forall_forall. intros r _. simpl.
  by destruct (to_numeric parse_float (TotalCharges r)).
Qed.

Lemma imputation_leaves_no_missing_witness :
  Exists (fun r => is_Some (to_numeric decimal_literal (TotalCharges r))) example_df /\
  Forall (fun c => is_Some (total_charges c)) (clean decimal_literal false example_df) /\
  total_charges <$> clean decimal_literal true example_df =
  coerced decimal_literal example_df.
Proof.
  assert (Hex : Exists (fun r => is_Some (to_numeric decimal_literal (TotalCharges r)))
                       example_df).
  { apply Exists_cons_tl, Exists_cons_hd. by eexists. }
  destruct (imputation_leaves_no_missing decimal_literal example_df) as [Hfill Hcow].
  split; [exact Hex|]. split; [exact (Hfill Hex) | exact Hcow].
Defined.

(** X11.  Imputation stays within the observed range: when every
    TotalCharges value that coerces lies between [lo] and [hi], so does
    every TotalCharges value of the cleaned frame, imputed ones
    included, with and without copy-on-write. *)
Theorem cleaned_total_charges_in_range
    (parse_float : string -> option Q) (copy_on_write : bool)
    (df : list raw_row) (lo hi : Q) :
  Forall (fun r => forall q, to_numeric parse_float (TotalCharges r) = Some q ->
                             (lo <= q /\ q <= hi)%Q) df ->
  Forall (fun c => forall q, total_charges c = Some q -> (lo <= q /\ q <= hi)%Q)
         (clean parse_float copy_on_write df).
Proof.
  intros Hall.
  assert (Hobs : Forall (fun v => lo <= v /\ v <= hi)%Q
                        (dropna (coerced parse_float df))).
  { apply Forall_forall. intros v Hv. unfold dropna, coerced in Hv.
    apply list_elem_of_omap in Hv as (o & Ho & Heq).
    unfold id in Heq. subst o.
    apply list_elem_of_fmap in Ho as (r & Hq & Hr).
    rewrite Forall_forall in Hall. by apply (Hall r Hr). }
  unfold clean. apply Forall_fmap, Forall_forall. intros r Hr q. simpl.
  destruct (to_numeric parse_float (TotalCharges r)) as [q'|] eqn:Hq; simpl.
  - intros Hq'. rewrite Forall_forall in Hall. apply (Hall r Hr).
    rewrite Hq. by destruct copy_on_write.
  - destruct copy_on_write; [done|].
    intros Hm. by apply (median_in_range _ _ _ _ Hobs Hm).
Qed.

Lemma cleaned_total_charges_in_range_witness :
  Forall (fun c => forall q, total_charges c = Some q ->
                             (inject_Z 10 <= q /\ q <= inject_Z 30)%Q)
         (clean decimal_literal false example_df).
Proof.
  apply (cleaned_total_charges_in_range decimal_literal false example_df).
  repeat (apply List.Forall_cons;
          [intros q Hq; vm_compute in Hq; try discriminate;
           injection Hq as <-; split; by vm_compute|]).
  apply List.Forall_nil.
Defined.

(** *** The imputed value is a median *)

Lemma sort_values_ascending (vs : list Q) :
  StronglySorted Qle (sort_values (fun q => q) false vs).
Proof. apply (sort_values_sorted (fun q : Q => q) false). Qed.

Lemma filter_length_take {A} (P : A -> Prop) `{!forall x, Decision (P x)}
    (l : list A) (k : nat) :
  Forall P (take k l) -> (length (take k l) <= length (filter P l))%nat.
Proof.
  intros Hall. rewrite <- (take_drop k l) at 2. rewrite filter_app, length_app.
  assert (Heq : filter P (take k l) = take k l).
  { induction Hall as [|x xs Hx _ IH]; [done|].
    by rewrite filter_cons_True, IH. }
  rewrite Heq. lia.
Qed.

Lemma filter_length_drop {A} (P : A -> Prop) `{!forall x, Decision (P x)}
    (l : list A) (k : nat) :
  Forall P (drop k l) -> (length (drop k l) <= length (filter P l))%nat.
Proof.
  intros Hall. rewrite <- (take_drop k l) at 2. rewrite filter_app, length_app.
  assert (Heq : filter P (drop k l) = drop k l).
  { induction Hall as [|x xs Hx _ IH]; [done|].
    by rewrite filter_cons_True, IH. }
  rewrite Heq. lia.
Qed.

(** In an ascending list, everything up to position [k] is at most the
    value at [k], and everything from [k] on is at least that value. *)
Lemma sorted_split (vs : list Q) (k : nat) (x : Q) :
  StronglySorted Qle vs -> vs !! k = Some x ->
  Forall (fun v => v <= x)%Q (take (S k) vs) /\
  Forall (fun v => x <= v)%Q (drop k vs).
Proof.
  intros Hs Hk.
  rewrite <- (take_drop_middle vs k x Hk) in Hs.
  apply StronglySorted_app in Hs as (Hcross & _ & Hright).
  apply StronglySorted_inv in Hright as [_ Hafter].
  split.
  - rewrite (take_S_r vs k x Hk). apply Forall_app. split.
    + apply Forall_forall. intros v Hv. apply Hcross; [done | by left].
    + repeat constructor. apply Qle_refl.
  - rewrite (drop_S vs x k Hk). constructor; [apply Qle_refl | done].
Qed.

Lemma Forall_Qle_trans_l (l : list Q) (x m : Q) :
  (x <= m)%Q -> Forall (fun v => v <= x)%Q l -> Forall (fun v => Qle_bool v m) l.
Proof.
  intros Hxm Hall. eapply Forall_impl; [exact Hall|]. intros v Hv. simpl in Hv.
  apply Is_true_true, Qle_bool_iff. by eapply Qle_trans.
Qed.

Lemma Forall_Qle_trans_r (l : list Q) (x m : Q) :
  (m <= x)%Q -> Forall (fun v => x <= v)%Q l -> Forall (fun v => Qle_bool m v) l.
Proof.
  intros Hxm Hall. eapply Forall_impl; [exact Hall|]. intros v Hv. simpl in Hv.
  apply Is_true_true, Qle_bool_iff. by eapply Qle_trans.
Qed.

Lemma median_halves (obs : list Q) (m : Q) :
  median (Some <$> obs) = Some m ->
  (length obs <= 2 * length (filter (fun v => Qle_bool v m) obs))%nat /\
  (length obs <= 2 * length (filter (fun v => Qle_bool m v) obs))%nat.
Proof.
  unfold median. rewrite dropna_present.
  pose proof (sort_values_ascending obs) as Hs.
  pose proof (sort_values_Permutation (fun q : Q => q) false obs) as Hperm.
  set (vs := sort_values (fun q => q) false obs) in *.
  rewrite <- (Permutation_length Hperm).
  rewrite <- (Permutation_length (filter_Permutation (fun v => Qle_bool v m) _ _ Hperm)).
  rewrite <- (Permutation_length (filter_Permutation (fun v => Qle_bool m v) _ _ Hperm)).
  clearbody vs. clear Hperm.
  destruct (Nat.eqb (length vs) 0); [done|].
  destruct (Nat.even (length vs)) eqn:Heven.
  - apply Nat.even_spec in Heven as [h Hh].
    assert (Hdiv : (length vs / 2)%nat = h).
    { rewrite Hh, Nat.mul_comm. apply Nat.div_mul. lia. }
    rewrite Hdiv.
    destruct (vs !! (h - 1)%nat) as [a|] eqn:Ha; [|done].
    destruct (vs !! h) as [b|] eqn:Hb; [|done].
    simpl. intros [= <-].
    assert (Hh0 : (0 < h)%nat).
    { apply lookup_lt_Some in Hb. lia. }
    destruct (sorted_split vs (h - 1) a Hs Ha) as [Hlow _].
    destruct (sorted_split vs h b Hs Hb) as [Hb_low Hhigh].
    assert (Hab : (a <= b)%Q).
    { rewrite Forall_forall in Hb_low. apply Hb_low.
      apply (list_elem_of_lookup_2 _ (h - 1)). rewrite lookup_take_lt by lia. done. }
    assert (Ham : (a <= (a + b) / 2)%Q).
    { apply Qle_shift_div_l; [done|].
      assert (Hdbl : (a * 2 == a + a)%Q) by ring.
      rewrite Hdbl. apply Qplus_le_compat; [apply Qle_refl | done]. }
    assert (Hmb : ((a + b) / 2 <= b)%Q).
    { apply Qle_shift_div_r; [done|].
      assert (Hdbl : (b * 2 == b + b)%Q) by ring.
      rewrite Hdbl. apply Qplus_le_compat; [done | apply Qle_refl]. }
    replace (S (h - 1)) with h in Hlow by lia.
    pose proof (filter_length_take (fun v => Qle_bool v ((a + b) / 2)) vs h
                  (Forall_Qle_trans_l _ _ _ Ham Hlow)) as Hcount_low.
    pose proof (filter_length_drop (fun v => Qle_bool ((a + b) / 2) v) vs h
                  (Forall_Qle_trans_r _ _ _ Hmb Hhigh)) as Hcount_high.
    rewrite length_take in Hcount_low. rewrite length_drop in Hcount_high. lia.
  - intros Hm.
    destruct (sorted_split vs _ m Hs Hm) as [Hlow Hhigh].
    pose proof (filter_length_take (fun v => Qle_bool v m) vs _
                  (Forall_Qle_trans_l _ _ _ (Qle_refl m) Hlow)) as Hcount_low.
    pose proof (filter_length_drop (fun v => Qle_bool m v) vs _
                  (Forall_Qle_trans_r _ _ _ (Qle_refl m) Hhigh)) as Hcount_high.
    rewrite length_take in Hcount_low. rewrite length_drop in Hcount_high.
    apply lookup_lt_Some in Hm.
    pose proof (Nat.div_mod_eq (length vs) 2) as Hdm.
    pose proof (Nat.mod_upper_bound (length vs) 2) as Hmod.
    lia.
Qed.

(** X19.  The value written into the missing TotalCharges cells is a
    median of the values that coerced: at least half of them are not
    larger than it and at least half of them are not smaller. *)
Theorem imputed_value_is_a_median
    (parse_float : string -> option Q) (df : list raw_row) (m : Q) :
  median_total_charges parse_float df = Some m ->
  let observed := dropna (coerced parse_float df) in
  (length observed <= 2 * length (filter (fun v => Qle_bool v m) observed))%nat /\
  (length observed <= 2 * length (filter (fun v => Qle_bool m v) observed))%nat.
Proof.
  intros Hm. simpl. apply median_halves.
  unfold median_total_charges in Hm. by rewrite <- median_dropna.
Qed.

Lemma imputed_value_is_a_median_witness :
  let observed := dropna (coerced decimal_literal example_df) in
  (length observed <= 2 * length (filter (fun v => Qle_bool v (inject_Z 20)) observed))%nat /\
  (length observed <= 2 * length (filter (fun v => Qle_bool (inject_Z 20) v) observed))%nat.
Proof.
  apply (imputed_value_is_a_median decimal_literal example_df (inject_Z 20)).
  reflexivity.
Defined.

End ChurnExtras.

(** ** The imputation of TotalCharges *)
Module ImputationProps.
Import Frame FrameFacts Churn ChurnProps ChurnExtras.

(** The median, without reference to how it is computed: the middle of
    the ascending arrangement of the values present, or the mean of its
    two middle values when their number is even. *)
Lemma median_is_middle (col : list (option Q)) (m : Q) :
  median col = Some m ->
  exists vs,
    vs ≡ₚ dropna col /\ StronglySorted Qle vs /\
    if Nat.even (length vs)
    then exists a b, vs !! (length vs / 2 - 1)%nat = Some a /\
                     vs !! (length vs / 2)%nat = Some b /\
                     m = ((a + b) / 2)%Q
    else vs !! (length vs / 2)%nat = Some m.
Proof.
  unfold median. intros Hm.
  exists (sort_values (fun q => q) false (dropna col)).
  split; [apply sort_values_Permutation|].
  split; [apply sort_values_ascending|].
  set (vs := sort_values (fun q => q) false (dropna col)) in *.
  destruct (Nat.eqb (length vs) 0); [done|].
  destruct (Nat.even (length vs)); [|done].
  destruct (vs !! (length vs / 2 - 1)%nat) as [a|]; [|done].
  destruct (vs !! (length vs / 2)%nat) as [b|]; [|done].
  simpl in Hm. injection Hm as <-. by exists a, b.
Qed.

Lemma median_None (col : list (option Q)) :
  median col = None <-> dropna col = [].
Proof.
  split.
  - intros Hnone. destruct (decide (dropna col = [])) as [|Hne]; [done|].
    apply median_is_Some in Hne as [m Hm]. congruence.
  - intros Hnil. unfold median. by rewrite Hnil.
Qed.

(** C5.  The value the cell computes is the median of the TotalCharges
    values that coerced (missing when none did).  Without copy-on-write
    every value that fails the coercion is replaced by it; with
    copy-on-write the chained in-place fill does not reach the frame and
    every such value stays missing.  Values that coerced are kept either
    way.  On [["", "10", "20", "30"]] the blank becomes 20 without
    copy-on-write and stays missing with it; on the unsorted column
    [["40", "", "10", "30", "20"]] it becomes (20 + 30) / 2, or stays
    missing. *)
Theorem total_charges_imputation_by_mode
    (parse_float : string -> option Q) (df : list raw_row) :
  (forall m, median_total_charges parse_float df = Some m ->
     exists vs,
       vs ≡ₚ dropna (coerced parse_float df) /\ StronglySorted Qle vs /\
       if Nat.even (length vs)
       then exists a b, vs !! (length vs / 2 - 1)%nat = Some a /\
                        vs !! (length vs / 2)%nat = Some b /\
                        m = ((a + b) / 2)%Q
       else vs !! (length vs / 2)%nat = Some m) /\
  (median_total_charges parse_float df = None <->
   dropna (coerced parse_float df) = []) /\
  (forall (i : nat) (r : raw_row),
      df !! i = Some r ->
      to_numeric parse_float (TotalCharges r) = None ->
      total_charges <$> clean parse_float false df !! i =
      Some (median_total_charges parse_float df) /\
      total_charges <$> clean parse_float true df !! i = Some None) /\
  (forall (copy_on_write : bool) (i : nat) (r : raw_row) (q : Q),
      df !! i = Some r ->
      to_numeric parse_float (TotalCharges r) = Some q ->
      total_charges <$> clean parse_float copy_on_write df !! i = Some (Some q)) /\
  (parse_float "" = None ->
   parse_float "10" = Some (inject_Z 10) ->
   parse_float "20" = Some (inject_Z 20) ->
   parse_float "30" = Some (inject_Z 30) ->
   parse_float "40" = Some (inject_Z 40) ->
   (TotalCharges <$> df = [CStr ""; CStr "10"; CStr "20"; CStr "30"] ->
    total_charges <$> clean parse_float false df =
    [Some (inject_Z 20); Some (inject_Z 10); Some (inject_Z 20); Some (inject_Z 30)] /\
    total_charges <$> clean parse_float true df =
    [None; Some (inject_Z 10); Some (inject_Z 20); Some (inject_Z 30)]) /\
   (TotalCharges <$> df = [CStr "40"; CStr ""; CStr "10"; CStr "30"; CStr "20"] ->
    total_charges <$> clean parse_float false df =
    [Some (inject_Z 40); Some ((inject_Z 20 + inject_Z 30) / 2)%Q;
     Some (inject_Z 10); Some (inject_Z 30); Some (inject_Z 20)] /\
    total_charges <$> clean parse_float true df =
    [Some (inject_Z 40); None;
     Some (inject_Z 10); Some (inject_Z 30); Some (inject_Z 20)])).
Proof.
  split; [intros m; apply median_is_middle|].
  split; [apply median_None|].
  split; [|split].
  - intros i r Hr Hfail. rewrite !clean_lookup, Hr. simpl.
    by rewrite Hfail.
  - intros cow i r q Hr Hq. rewrite clean_lookup, Hr. simpl.
    rewrite Hq. by destruct cow.
  - intros H0 H10 H20 H30 H40.
    assert (Hco : coerced parse_float df =
                  to_numeric parse_float <$> (TotalCharges <$> df)).
    { unfold coerced. change (map ?f df) with (f <$> df).
      by rewrite <- list_fmap_compose. }
    split; intros Hcol; rewrite Hcol in Hco; simpl in Hco;
      rewrite ?H0, ?H10, ?H20, ?H30, ?H40 in Hco;
      rewrite !clean_total_charges; unfold median_total_charges;
      rewrite Hco; split; reflexivity.
Qed.

Lemma total_charges_imputation_by_mode_witness :
  (example_df !! 0%nat = Some (example_row "" "No") /\
   to_numeric decimal_literal (TotalCharges (example_row "" "No")) = None /\
   total_charges <$> clean decimal_literal false example_df !! 0%nat =
   Some (Some (inject_Z 20)) /\
   total_charges <$> clean decimal_literal true example_df !! 0%nat = Some None) /\
  (total_charges <$> clean decimal_literal false unsorted_df =
   [Some (inject_Z 40); Some ((inject_Z 20 + inject_Z 30) / 2)%Q;
    Some (inject_Z 10); Some (inject_Z 30); Some (inject_Z 20)] /\
   total_charges <$> clean decimal_literal true unsorted_df =
   [Some (inject_Z 40); None;
    Some (inject_Z 10); Some (inject_Z 30); Some (inject_Z 20)]).
Proof.
  split.
  - destruct (total_charges_imputation_by_mode decimal_literal example_df)
      as (_ & _ & Hfail & _ & _).
    split; [reflexivity|]. split; [reflexivity|].
    apply (Hfail 0%nat (example_row "" "No")); reflexivity.
  - destruct (total_charges_imputation_by_mode decimal_literal unsorted_df)
      as (_ & _ & _ & _ & Hexample).
    apply Hexample; reflexivity.
Defined.

End ImputationProps.

(** ** Properties of the feature ranking *)
Module ImportanceProps.
Import Frame FrameFacts Importance.

(** X12.  The ranking keeps ten rows, or all of them when there are
    fewer; the rows kept are in descending order of importance, and no
    row left out is more important than a row kept. *)
Theorem top_features_are_the_top (feature_importance_df : list importance_row) :
  length (top_features feature_importance_df) =
  (10 `min` length feature_importance_df)%nat /\
  StronglySorted (fun a b => importance b <= importance a)%Q
                 (top_features feature_importance_df) /\
  exists rest,
    feature_importance_df ≡ₚ top_features feature_importance_df ++ rest /\
    Forall (fun a => Forall (fun b => importance b <= importance a)%Q rest)
           (top_features feature_importance_df).
Proof.
  unfold top_features.
  pose proof (sort_values_sorted importance true feature_importance_df) as Hsorted.
  rewrite <- (take_drop 10 (sort_values importance true feature_importance_df))
    in Hsorted.
  apply StronglySorted_app in Hsorted as (Hcross & Htop & _).
  split; [by rewrite length_take, sort_values_length|].
  split; [exact Htop|].
  exists (drop 10 (sort_values importance true feature_importance_df)).
  split; [by rewrite take_drop, sort_values_Permutation|].
  apply Forall_forall. intros a Ha. apply Forall_forall. intros b Hb.
  exact (Hcross a b Ha Hb).
Qed.

End ImportanceProps.

(** ** Properties of the cluster profile and of the labelled frame *)
Module ProfilingProps.
Import Frame FrameFacts Segmentation LabelerProps.

Section GroupBy.
Context {A : Type} (key : A -> Z).
Implicit Types (a : A) (l : list A) (gs : list (Z * list A)) (c : Z).

Lemma add_to_group_keys a gs c :
  c ∈ (Profiling.add_to_group key a gs).*1 <-> c = key a \/ c ∈ gs.*1.
Proof.
  induction gs as [|[k rows] gs IH]; simpl.
  - rewrite list_elem_of_singleton, elem_of_nil. tauto.
  - destruct (Z.ltb_spec (key a) k) as [Hlt|Hge]; simpl.
    { rewrite !elem_of_cons. tauto. }
    destruct (Z.eqb_spec (key a) k) as [Heq|Hne]; simpl.
    + rewrite !elem_of_cons. subst k. tauto.
    + rewrite !elem_of_cons, IH. tauto.
Qed.

Lemma add_to_group_sorted a gs :
  StronglySorted Z.lt gs.*1 ->
  StronglySorted Z.lt (Profiling.add_to_group key a gs).*1.
Proof.
  induction gs as [|[k rows] gs IH]; simpl; intros Hs.
  - repeat constructor.
  - apply StronglySorted_inv in Hs as [Hs Hall].
    destruct (Z.ltb_spec (key a) k) as [Hlt|Hge]; simpl.
    { constructor; [by constructor|]. constructor; [done|].
      eapply Forall_impl; [exact Hall|]. simpl. lia. }
    destruct (Z.eqb_spec (key a) k) as [Heq|Hne]; simpl.
    + by constructor.
    + constructor; [by apply IH|].
      apply Forall_forall. intros c [->|Hc]%add_to_group_keys; [lia|].
      rewrite Forall_forall in Hall. by apply Hall.
Qed.

Lemma add_to_group_members a gs :
  Forall (fun g => g.2 <> [] /\ Forall (fun b => key b = g.1) g.2) gs ->
  Forall (fun g => g.2 <> [] /\ Forall (fun b => key b = g.1) g.2)
         (Profiling.add_to_group key a gs).
Proof.
  induction gs as [|[k rows] gs IH]; simpl; intros Hall.
  - repeat constructor; done.
  - apply Forall_cons in Hall as [[Hne Hk] Hall]. simpl in Hne, Hk.
    destruct (Z.ltb_spec (key a) k) as [Hlt|Hge].
    { repeat constructor; done. }
    destruct (Z.eqb_spec (key a) k) as [Heq|Hne'].
    + constructor; [|done]. simpl. split; [by destruct rows|].
      apply Forall_app. split; [done|]. by repeat constructor.
    + constructor; [done|]. by apply IH.
Qed.

Lemma add_to_group_size a gs :
  sum_list_with (fun g => length g.2) (Profiling.add_to_group key a gs) =
  S (sum_list_with (fun g => length g.2) gs).
Proof.
  induction gs as [|[k rows] gs IH]; simpl; [done|].
  destruct (Z.ltb_spec (key a) k) as [Hlt|Hge]; simpl; [done|].
  destruct (Z.eqb_spec (key a) k) as [Heq|Hne]; simpl.
  - rewrite length_app. simpl. lia.
  - rewrite IH. lia.
Qed.

Lemma group_by_snoc l a :
  Profiling.group_by key (l ++ [a]) =
  Profiling.add_to_group key a (Profiling.group_by key l).
Proof. unfold Profiling.group_by. by rewrite foldl_snoc. Qed.

Lemma group_by_sorted l : StronglySorted Z.lt (Profiling.group_by key l).*1.
Proof.
  induction l as [|a l IH] using rev_ind; [constructor|].
  rewrite group_by_snoc. by apply add_to_group_sorted.
Qed.

Lemma group_by_keys l c : c ∈ (Profiling.group_by key l).*1 <-> c ∈ key <$> l.
Proof.
  induction l as [|a l IH] using rev_ind; [done|].
  rewrite group_by_snoc, add_to_group_keys, IH, fmap_app, elem_of_app. simpl.
  rewrite list_elem_of_singleton. tauto.
Qed.

Lemma group_by_members l :
  Forall (fun g => g.2 <> [] /\ Forall (fun b => key b = g.1) g.2)
         (Profiling.group_by key l).
Proof.
  induction l as [|a l IH] using rev_ind; [constructor|].
  rewrite group_by_snoc. by apply add_to_group_members.
Qed.

Lemma group_by_size l :
  sum_list_with (fun g => length g.2) (Profiling.group_by key l) = length l.
Proof.
  induction l as [|a l IH] using rev_ind; [done|].
  rewrite group_by_snoc, add_to_group_size, IH, length_app. simpl. lia.
Qed.

Lemma group_by_NoDup l : NoDup (Profiling.group_by key l).*1.
Proof.
  pose proof (group_by_sorted l) as Hs.
  induction ((Profiling.group_by key l).*1) as [|k ks IH]; [constructor|].
  apply StronglySorted_inv in Hs as [Hs Hall].
  apply NoDup_cons. split; [|by apply IH].
  intros Hin. rewrite Forall_forall in Hall. specialize (Hall _ Hin). lia.
Qed.
End GroupBy.

Section Profile.
Variable round2 : Q -> Q.
Implicit Types (rfm_df : list Profiling.customer).

Lemma cluster_profile_ids rfm_df :
  Cluster <$> Profiling.cluster_profile round2 rfm_df =
  (Profiling.group_by Profiling.Cluster rfm_df).*1.
Proof. unfold Profiling.cluster_profile. by rewrite <- list_fmap_compose. Qed.

(** X13.  The cluster profile has one row per cluster id that occurs
    among the customers, in ascending order of the id; every count is at
    least 1 and the counts add up to the number of customers. *)
Theorem cluster_profile_rows rfm_df :
  StronglySorted Z.lt (Cluster <$> Profiling.cluster_profile round2 rfm_df) /\
  (forall k, k ∈ Cluster <$> Profiling.cluster_profile round2 rfm_df <->
             k ∈ Profiling.Cluster <$> rfm_df) /\
  Forall (fun row => (1 <= Monetary_count row)%nat)
         (Profiling.cluster_profile round2 rfm_df) /\
  sum_list_with Monetary_count (Profiling.cluster_profile round2 rfm_df) =
  length rfm_df.
Proof.
  split; [rewrite cluster_profile_ids; apply group_by_sorted|].
  split; [intros k; rewrite cluster_profile_ids; apply group_by_keys|].
  split.
  - unfold Profiling.cluster_profile. apply Forall_fmap.
    eapply Forall_impl; [apply (group_by_members Profiling.Cluster)|].
    intros [k rows] [Hne _]. simpl in *. rewrite length_fmap.
    destruct rows; [done | simpl; lia].
  - rewrite <- (group_by_size Profiling.Cluster rfm_df).
    unfold Profiling.cluster_profile.
    induction (Profiling.group_by Profiling.Cluster rfm_df) as [|g gs IH];
      csimpl; [done|].
    by rewrite IH, length_fmap.
Qed.

Lemma cluster_profile_distinct rfm_df :
  NoDup (Cluster <$> Profiling.cluster_profile round2 rfm_df).
Proof. rewrite cluster_profile_ids. apply group_by_NoDup. Qed.

(** The number of rows of the profile is the number of different cluster
    ids among the customers. *)
Lemma cluster_profile_length rfm_df :
  length (Profiling.cluster_profile round2 rfm_df) =
  size (list_to_set (Profiling.Cluster <$> rfm_df) : gset Z).
Proof.
  rewrite <- (length_fmap Cluster), <- (size_list_to_set (C := gset Z))
    by apply cluster_profile_distinct.
  f_equal. apply set_eq. intros k. rewrite !elem_of_list_to_set.
  rewrite cluster_profile_ids. apply group_by_keys.
Qed.

End Profile.

(** The four ranks the dict literal reads exist once there are four
    rows. *)
Lemma selected_ranks (cluster_profile : list profile_row) :
  (4 <= length cluster_profile)%nat ->
  exists k0 k1 k2 k3 : Z,
    by_recency cluster_profile !! 0%nat = Some k0 /\
    by_recency cluster_profile !! 1%nat = Some k1 /\
    by_frequency cluster_profile !! 2%nat = Some k2 /\
    by_frequency cluster_profile !! 3%nat = Some k3.
Proof.
  intros Hlen.
  destruct (lookup_lt_is_Some_2 (by_recency cluster_profile) 0%nat) as [k0 H0].
  { rewrite by_recency_length. lia. }
  destruct (lookup_lt_is_Some_2 (by_recency cluster_profile) 1%nat) as [k1 H1].
  { rewrite by_recency_length. lia. }
  destruct (lookup_lt_is_Some_2 (by_frequency cluster_profile) 2%nat) as [k2 H2].
  { rewrite by_frequency_length. lia. }
  destruct (lookup_lt_is_Some_2 (by_frequency cluster_profile) 3%nat) as [k3 H3].
  { rewrite by_frequency_length. lia. }
  by exists k0, k1, k2, k3.
Qed.

Lemma segment_map_domain (k0 k1 k2 k3 c : Z) :
  is_Some (Segment (<[k3 := "Hibernating"]>
                    (<[k2 := "At-Risk"]>
                     (<[k1 := "Loyal Customers"]>
                      (<[k0 := "Champions"]> ∅)))) c)
  <-> c ∈ [k0; k1; k2; k3].
Proof.
  unfold Segment.
  rewrite !lookup_insert_is_Some', lookup_empty, !elem_of_cons, elem_of_nil.
  split; [|intuition congruence].
  intros [?|[?|[?|[?|Hnone]]]]; [intuition congruence..|]. by destruct Hnone.
Qed.

Section Labelled.
Variable round2 : Q -> Q.
Implicit Types (rfm_df : list Profiling.customer).

(** X14.  Building the Segment column raises an index error exactly when
    fewer than four different cluster ids occur among the customers.
    Otherwise the column has one entry per customer, and some customer is
    "At-Risk" and some customer is "Hibernating", whatever the data. *)
Theorem Segment_column_outcome rfm_df :
  match Profiling.Segment_column round2 rfm_df with
  | Raise e =>
      e = IndexError /\
      (size (list_to_set (Profiling.Cluster <$> rfm_df) : gset Z) < 4)%nat
  | Ok col =>
      (4 <= size (list_to_set (Profiling.Cluster <$> rfm_df) : gset Z))%nat /\
      length col = length rfm_df /\
      Some "At-Risk" ∈ col /\
      Some "Hibernating" ∈ col
  end.
Proof.
  rewrite <- (cluster_profile_length round2). unfold Profiling.Segment_column.
  set (cluster_profile := Profiling.cluster_profile round2 rfm_df).
  destruct (decide (length cluster_profile < 4)%nat) as [Hlt|Hge].
  { by rewrite segment_map_Raise. }
  destruct (selected_ranks cluster_profile) as (k0 & k1 & k2 & k3 & H0 & H1 & H2 & H3);
    [lia|].
  rewrite (segment_map_Ok _ k0 k1 k2 k3) by done. simpl.
  pose proof (cluster_profile_distinct round2 rfm_df) as Hnd.
  pose proof (by_frequency_Permutation cluster_profile) as Hpf.
  assert (H23 : k2 <> k3).
  { apply (lookup_distinct cluster_profile _ 2 3 k2 k3 Hnd Hpf H2 H3). lia. }
  assert (Hcust : forall i k, by_frequency cluster_profile !! i = Some k ->
                              exists c, c ∈ rfm_df /\ Profiling.Cluster c = k).
  { intros i k Hk.
    pose proof (lookup_in_profile cluster_profile _ i k Hpf Hk) as Hin.
    unfold cluster_profile in Hin.
    rewrite cluster_profile_ids, group_by_keys in Hin.
    apply list_elem_of_fmap in Hin as (c & -> & Hc). by exists c. }
  split; [lia|]. split; [by rewrite length_fmap|]. split.
  - destruct (Hcust _ _ H2) as (c & Hc & Hk).
    apply list_elem_of_fmap. exists c. split; [|done].
    unfold Segment. by rewrite Hk, lookup_insert_ne, lookup_insert_eq.
  - destruct (Hcust _ _ H3) as (c & Hc & Hk).
    apply list_elem_of_fmap. exists c. split; [|done].
    unfold Segment. by rewrite Hk, lookup_insert_eq.
Qed.

End Labelled.

(** X15.  With more than four clusters the labeler raises nothing and
    leaves at least one cluster without a label. *)
Theorem more_than_four_clusters_unlabeled (cluster_profile : list profile_row) :
  NoDup (Cluster <$> cluster_profile) ->
  (4 < length cluster_profile)%nat ->
  exists m, segment_map cluster_profile = Ok m /\
            Exists (fun row => Segment m (Cluster row) = None) cluster_profile.
Proof.
  intros Hnd Hlen.
  destruct (selected_ranks cluster_profile) as (k0 & k1 & k2 & k3 & H0 & H1 & H2 & H3);
    [lia|].
  eexists. split; [by apply (segment_map_Ok _ k0 k1 k2 k3)|].
  destruct (decide (Forall (fun k => k ∈ [k0; k1; k2; k3]) (Cluster <$> cluster_profile)))
    as [Hall|Hnot].
  - exfalso.
    assert (Hsub : Cluster <$> cluster_profile ⊆+ [k0; k1; k2; k3]).
    { apply NoDup_submseteq; [done|]. by apply Forall_forall. }
    apply submseteq_length in Hsub. rewrite length_fmap in Hsub. simpl in Hsub. lia.
  - apply not_Forall_Exists in Hnot; [|apply _].
    apply Exists_exists in Hnot as (k & Hk & Hn). simpl in Hn.
    apply list_elem_of_fmap in Hk as (row & -> & Hrow).
    apply Exists_exists. exists row. split; [done|].
    apply eq_None_not_Some. by rewrite segment_map_domain.
Qed.

Lemma more_than_four_clusters_unlabeled_witness :
  exists m, segment_map Profiling.five_cluster_profile = Ok m /\
            Exists (fun row => Segment m (Cluster row) = None)
                   Profiling.five_cluster_profile.
Proof.
  apply more_than_four_clusters_unlabeled.
  - change (NoDup [0; 1; 2; 3; 4]%Z).
    repeat (apply NoDup_cons_2;
            [rewrite ?elem_of_cons, elem_of_nil; intuition discriminate|]).
    apply NoDup_nil_2.
  - simpl. lia.
Defined.

(** The labelled frame on small inputs: five customers in four clusters,
    and three customers in two. *)
Example Segment_column_four_clusters :
  Profiling.Segment_column Profiling.round_half_even Profiling.four_clusters =
  Ok [Some "Champions"; Some "Hibernating"; Some "At-Risk";
      Some "Loyal Customers"; Some "Champions"].
Proof. by vm_compute. Qed.

Example Segment_column_two_clusters :
  Profiling.Segment_column Profiling.round_half_even Profiling.two_clusters =
  Raise IndexError.
Proof. by vm_compute. Qed.

End ProfilingProps.

(** ** Properties of the one-hot encoding *)
Module EncodingProps.
Import Encoding.

Implicit Types (s x level : string) (l : list string).
Implicit Types (vals : list (option string)) (v : option string).

Lemma insert_level_elem s l x : x ∈ insert_level s l <-> x = s \/ x ∈ l.
Proof.
  induction l as [|y l IH]; simpl.
  - rewrite list_elem_of_singleton, elem_of_nil. tauto.
  - destruct (OrdersEx.String_as_OT.compare_spec s y) as [Heq|Hlt|Hgt].
    + rewrite elem_of_cons. unfold OrdersEx.String_as_OT.eq in Heq. subst y. tauto.
    + rewrite !elem_of_cons. tauto.
    + rewrite !elem_of_cons, IH. tauto.
Qed.

Lemma insert_level_sorted s l :
  StronglySorted OrdersEx.String_as_OT.lt l -> StronglySorted OrdersEx.String_as_OT.lt (insert_level s l).
Proof.
  induction l as [|y l IH]; simpl; intros Hs; [by repeat constructor|].
  apply StronglySorted_inv in Hs as [Hs Hall].
  destruct (OrdersEx.String_as_OT.compare_spec s y) as [Heq|Hlt|Hgt].
  - by constructor.
  - constructor; [by constructor|]. constructor; [done|].
    eapply Forall_impl; [exact Hall|]. intros z Hz. by transitivity y.
  - constructor; [by apply IH|].
    apply Forall_forall. intros z [->|Hz]%insert_level_elem; [done|].
    rewrite Forall_forall in Hall. by apply Hall.
Qed.

Lemma levels_sorted vals : StronglySorted OrdersEx.String_as_OT.lt (levels vals).
Proof.
  unfold levels. induction (omap id vals) as [|s l IH]; simpl; [constructor|].
  by apply insert_level_sorted.
Qed.

Lemma levels_elem vals level : level ∈ levels vals <-> Some level ∈ vals.
Proof.
  unfold levels. transitivity (level ∈ omap id vals).
  - induction (omap id vals) as [|s l IH]; simpl; [done|].
    rewrite insert_level_elem, elem_of_cons, IH. tauto.
  - rewrite list_elem_of_omap. split.
    + intros (o & Ho & Heq). unfold id in Heq. by subst o.
    + intros Hin. by exists (Some level).
Qed.

Lemma sorted_NoDup l : StronglySorted OrdersEx.String_as_OT.lt l -> NoDup l.
Proof.
  induction l as [|x l IH]; intros Hs; [constructor|].
  apply StronglySorted_inv in Hs as [Hs Hall].
  apply NoDup_cons. split; [|by apply IH].
  intros Hin. rewrite Forall_forall in Hall.
  by apply (irreflexivity OrdersEx.String_as_OT.lt x), Hall.
Qed.

Lemma levels_NoDup vals : NoDup (levels vals).
Proof. apply sorted_NoDup, levels_sorted. Qed.

Lemma get_dummies_1d_rows (prefix : string) vals :
  Forall (fun c => encoded_rows c = length vals) (get_dummies_1d prefix vals).
Proof.
  unfold get_dummies_1d. apply Forall_fmap, Forall_forall.
  intros level _. simpl. by rewrite length_fmap.
Qed.

(** X16.  The levels of an object column are exactly the texts that occur
    in it, in strictly ascending order; the encoding has one indicator
    column for every level but the first, named after the column and the
    level, so a text that does not occur in the data gets no column; each
    indicator column has one entry per row. *)
Theorem dummy_columns_follow_levels (prefix : string) vals :
  StronglySorted OrdersEx.String_as_OT.lt (levels vals) /\
  (forall level, level ∈ levels vals <-> Some level ∈ vals) /\
  encoded_name <$> get_dummies_1d prefix vals =
  (fun level => String.append prefix (String.append "_" level)) <$> tail (levels vals) /\
  Forall (fun c => encoded_rows c = length vals) (get_dummies_1d prefix vals).
Proof.
  split; [apply levels_sorted|]. split; [apply levels_elem|].
  split; [|apply get_dummies_1d_rows].
  unfold get_dummies_1d. by rewrite <- list_fmap_compose.
Qed.

Lemma row_bits_get_dummies_1d (prefix : string) vals (i : nat) v :
  vals !! i = Some v ->
  row_bits (get_dummies_1d prefix vals) i =
  (fun level => bool_decide (v = Some level)) <$> tail (levels vals).
Proof.
  intros Hv. unfold row_bits, get_dummies_1d.
  induction (tail (levels vals)) as [|level l IH]; [done|].
  csimpl. rewrite list_lookup_fmap, Hv. simpl. by rewrite IH.
Qed.

Lemma bits_all_false v l :
  Forall (fun b => b = false) ((fun level => bool_decide (v = Some level)) <$> l)
  <-> forall level, level ∈ l -> v <> Some level.
Proof.
  rewrite Forall_fmap, Forall_forall. simpl.
  split; intros H level Hin.
  - specialize (H level Hin). by apply bool_decide_eq_false in H.
  - apply bool_decide_eq_false. by apply H.
Qed.

Lemma filter_true_none (bs : list bool) :
  Forall (fun b => b = false) bs -> filter (fun b => b = true) bs = [].
Proof.
  induction 1 as [|b bs -> _ IH]; [done|].
  by rewrite filter_cons_False.
Qed.

Lemma at_most_one_bit v l :
  NoDup l ->
  (length (filter (fun b => b = true)
                  ((fun level => bool_decide (v = Some level)) <$> l)) <= 1)%nat.
Proof.
  induction l as [|level l IH]; intros Hnd; [simpl; lia|].
  apply NoDup_cons in Hnd as [Hnot Hnd]. rewrite fmap_cons.
  destruct (bool_decide (v = Some level)) eqn:Hb.
  - apply bool_decide_eq_true in Hb. subst v.
    rewrite filter_cons_True by done.
    rewrite filter_true_none; [simpl; lia|].
    apply bits_all_false. intros level' Hin [= <-]. done.
  - rewrite filter_cons_False by done. by apply IH.
Qed.

(** X17.  In the indicator columns of one object column, a row has at
    most one true bit; it has none exactly when its cell is missing or
    holds the first level, so these two cases are encoded alike. *)
Theorem one_hot_row (prefix : string) vals (i : nat) v :
  vals !! i = Some v ->
  (length (filter (fun b => b = true) (row_bits (get_dummies_1d prefix vals) i)) <= 1)%nat /\
  (Forall (fun b => b = false) (row_bits (get_dummies_1d prefix vals) i)
   <-> v = None \/ v = head (levels vals)).
Proof.
  intros Hv. rewrite (row_bits_get_dummies_1d prefix vals i v Hv).
  pose proof (levels_NoDup vals) as Hnd.
  split.
  { apply at_most_one_bit.
    destruct (levels vals); [constructor|]. by apply NoDup_cons in Hnd as [_ ?]. }
  rewrite bits_all_false. split.
  - intros Hnone. destruct v as [level|]; [right | by left].
    assert (Hin : level ∈ levels vals).
    { apply levels_elem. by eapply list_elem_of_lookup_2. }
    destruct (levels vals) as [|first rest]; [by apply elem_of_nil in Hin|].
    apply elem_of_cons in Hin as [->|Hin]; [done|].
    by destruct (Hnone level Hin).
  - intros [->|Hhead] level Hin; [done|].
    destruct (levels vals) as [|first rest]; [by apply elem_of_nil in Hin|].
    simpl in Hhead, Hin. subst v. intros [= ->].
    by apply NoDup_cons in Hnd as [Hnot _].
Qed.

Lemma one_hot_row_witness :
  example_contract !! 0%nat = Some (Some "Two year") /\
  (length (filter (fun b => b = true)
                  (row_bits (get_dummies_1d "Contract" example_contract) 0)) <= 1)%nat /\
  (Forall (fun b => b = false) (row_bits (get_dummies_1d "Contract" example_contract) 0)
   <-> Some "Two year" = None \/ Some "Two year" = head (levels example_contract)).
Proof.
  split; [reflexivity|].
  apply (one_hot_row "Contract" example_contract 0 (Some "Two year")). reflexivity.
Defined.

(** X18.  Encoding keeps the number of rows: when every column of the
    frame has [n] rows, so has every column of the encoded frame. *)
Theorem get_dummies_keeps_rows (X : list column) (n : nat) :
  Forall (fun c => n_rows c = n) X ->
  Forall (fun c => encoded_rows c = n) (get_dummies X).
Proof.
  intros Hall. rewrite Forall_forall in Hall.
  unfold get_dummies. apply Forall_app. split.
  - apply Forall_forall. intros e (c & Hc & He)%list_elem_of_omap.
    destruct c as [name vals|name vals]; [|done].
    injection He as <-. exact (Hall _ Hc).
  - apply Forall_forall. intros e (cols & He & Hcols)%list_elem_of_join.
    apply list_elem_of_fmap in Hcols as (c & -> & Hc).
    destruct c as [name vals|name vals]; [by apply elem_of_nil in He|].
    pose proof (get_dummies_1d_rows name vals) as Hrows.
    rewrite Forall_forall in Hrows. rewrite (Hrows e He). exact (Hall _ Hc).
Qed.

Lemma get_dummies_keeps_rows_witness :
  Forall (fun c => n_rows c = 4%nat) example_X /\
  Forall (fun c => encoded_rows c = 4%nat) (get_dummies example_X).
Proof.
  assert (H : Forall (fun c => n_rows c = 4%nat) example_X).
  { repeat (apply List.Forall_cons; [reflexivity|]). apply List.Forall_nil. }
  split; [exact H|]. exact (get_dummies_keeps_rows example_X 4 H).
Defined.

End EncodingProps.
